(** * popinparty share-card theme: [build.py]

    A shallow embedding of [PopinPartyTheme.parse], [PopinPartyTheme.merge_pics],
    [PopinPartyTheme.render] and [embed_svg_as_data_url], together with the
    pydantic card schema.  Python lists that the code shares and mutates live
    in an explicit heap; calls into collaborators (image embedding, the merge
    predicate and operation, QR generation, the clock, jinja2, the browser
    page) are answered by a record of collaborators and logged in a trace. *)

From Stdlib Require Import ZArith String Ascii List Bool Lia.
From stdpp Require Import base list.
Import ListNotations.
Local Open Scope string_scope.
Local Open Scope list_scope.
Local Open Scope Z_scope.
Local Set Warnings "-register-all".

(* ===================================================================== *)
(** ** Values *)
(* ===================================================================== *)

(** [str | bytes | Path | BytesIO], the union type of avatars and images. *)
Inductive image : Type :=
| ImgStr (s : string)
| ImgBytes (b : list Byte.byte)
| ImgPath (p : string)
| ImgBytesIO (b : list Byte.byte).

(** A reference to a Python list of images living in the heap. *)
Definition loc : Type := nat.

Record Platform : Type := mkPlatform { platform_name : string }.

(** [nonebot_bison.post.Post], with the fields [parse] reads. *)
Inductive Post : Type := mkPost {
  post_nickname : option string;
  post_description : option string;
  post_avatar : option image;
  post_title : option string;
  post_content : string;
  post_images : option loc;
  post_repost : option Post;
  post_timestamp : option Z;
  post_url : option string;
  post_platform : Platform
}.

Record UserInfo : Type := mkUserInfo {
  user_name : string;
  user_desc : option string;
  user_avatar : option string
}.

Record Content : Type := mkContent {
  content_text : string;
  content_images : list string;
  content_title : option string
}.

Record Retweet : Type := mkRetweet {
  retweet_author : option string;
  retweet_content : option string;
  retweet_images : list string;
  retweet_avatar : option string
}.

Record PopinPartyCard : Type := mkPopinPartyCard {
  card_user : UserInfo;
  card_content : Content;
  card_retweet : option Retweet;
  card_qr_code : string;
  card_timestamp : string;
  card_platform : string
}.

(** Exceptions.  [LowLevel] is whatever a collaborator raises; its flag says
    whether it is an instance of [Exception] (a cancellation or a keyboard
    interrupt is not), its text is [str(e)]. *)
Inductive pyexc : Type :=
| LowLevel (is_exception : bool) (text : string)
| ThemeRenderUnsupportError (msg : string)
| ThemeRenderError (msg : string) (cause : pyexc).

Definition isinstance_Exception (e : pyexc) : bool :=
  match e with
  | LowLevel b _ => b
  | ThemeRenderUnsupportError _ => true
  | ThemeRenderError _ _ => true
  end.

Definition exc_str (e : pyexc) : string :=
  match e with
  | LowLevel _ t => t
  | ThemeRenderUnsupportError m => m
  | ThemeRenderError m _ => m
  end.

Inductive outcome (A : Type) : Type :=
| Ok (a : A)
| Raise (e : pyexc).
Arguments Ok {A} a.
Arguments Raise {A} e.

(** Keyword arguments of [get_new_page]. *)
Record PageOptions : Type := mkPageOptions {
  device_scale_factor : Z;
  viewport_width : Z;
  viewport_height : Z;
  base_url : string
}.

(** [nonebot_plugin_saa.Image(screenshot)]. *)
Inductive MessageSegmentFactory : Type :=
| Image (data : list Byte.byte).

(** What the code asks of the outside world, in the order it asks. *)
Inductive event : Type :=
| EvWebEmbedImage (img : image)
| EvGetClientForStatic
| EvIsPicsMergable (l : loc) (pics : list image)
| EvPicMerge (l : loc) (pics : list image)
| EvConvertToQr (data : string)
| EvNow
| EvGetTemplate (name : string)
| EvPathExists (p : string)
| EvReadFile (p : string)
| EvRenderAsync (card : PopinPartyCard) (logo : string)
| EvGetNewPage (opts : PageOptions)
| EvGoto (url : string)
| EvSetContent (html : string)
| EvWaitForTimeout (ms : Z)
| EvScreenshot (type : string) (quality : Z) (full_page : bool)
| EvPageClose.

Definition Heap : Type := list (list image).

Record State : Type := mkState {
  heap : Heap;
  trace : list event
}.

(** The contents of the list at [l]; a reference outside the heap reads as
    the empty list. *)
Definition deref (h : Heap) (l : loc) : list image := default [] (h !! l).

(* ===================================================================== *)
(** ** Collaborators *)
(* ===================================================================== *)

(** Everything [build.py] imports and calls but does not define.  Each call
    either returns or raises.  [pic_merge] receives the list by reference and
    may return that very list or another one. *)
Record Collaborators : Type := mkCollaborators {
  web_embed_image : image -> outcome string;
  get_client_for_static : outcome nat;
  is_pics_mergable : list image -> outcome bool;
  pic_merge : Heap -> loc -> nat -> outcome loc * Heap;
  convert_to_qr : string -> Z * Z * Z -> outcome image;
  now : Z;
  strftime_local : Z -> string;
  get_template : string -> outcome nat;
  read_text : string -> option (outcome string);
  b64encode : string -> string;
  render_async : nat -> PopinPartyCard -> string -> outcome string;
  template_uri : string;
  get_new_page : PageOptions -> outcome unit;
  page_goto : string -> outcome unit;
  page_set_content : string -> outcome unit;
  page_wait_for_timeout : Z -> outcome unit;
  page_screenshot : string -> Z -> bool -> outcome (list Byte.byte);
  page_close : outcome unit
}.

(* ===================================================================== *)
(** ** The effect monad: heap and trace, with exceptions *)
(* ===================================================================== *)

Definition M (A : Type) : Type := State -> outcome A * State.

Definition ret {A} (a : A) : M A := fun s => (Ok a, s).

Definition raise {A} (e : pyexc) : M A := fun s => (Raise e, s).

Definition bind {A B} (m : M A) (k : A -> M B) : M B :=
  fun s =>
    match m s with
    | (Ok a, s1) => k a s1
    | (Raise e, s1) => (Raise e, s1)
    end.

Notation "x <- m ;; k" := (bind m (fun x => k))
  (at level 100, m at next level, right associativity).
Notation "m ;;; k" := (bind m (fun _ => k))
  (at level 100, right associativity).

Definition emit (e : event) : M unit :=
  fun s => (Ok tt, mkState (heap s) (trace s ++ [e])).

(** Log the call, then answer with what the collaborator gives. *)
Definition call {A} (e : event) (r : outcome A) : M A :=
  emit e ;;; (fun s => (r, s)).

(** [list(xs)] and [[]]: a new list object. *)
Definition alloc (xs : list image) : M loc :=
  fun s => (Ok (List.length (heap s)), mkState (heap s ++ [xs]) (trace s)).

Definition read (l : loc) : M (list image) :=
  fun s => (Ok (deref (heap s) l), s).

(** [a.extend(b)]: the list at [a] grows in place. *)
Definition extend (a b : loc) : M unit :=
  fun s => (Ok tt,
            mkState (<[a := deref (heap s) a ++ deref (heap s) b]> (heap s))
                    (trace s)).

(** [try: m except Exception as e: h e]. *)
Definition try_except {A} (m : M A) (h : pyexc -> M A) : M A :=
  fun s =>
    match m s with
    | (Ok a, s1) => (Ok a, s1)
    | (Raise e, s1) => if isinstance_Exception e then h e s1 else (Raise e, s1)
    end.

(** [try: m finally: f]: [f] runs on every exit; when it raises, its
    exception replaces the pending one. *)
Definition try_finally {A} (m : M A) (f : M unit) : M A :=
  fun s =>
    match m s with
    | (r, s1) =>
        match f s1 with
        | (Ok _, s2) => (r, s2)
        | (Raise e, s2) => (Raise e, s2)
        end
    end.

(* ===================================================================== *)
(** ** Python truthiness and small helpers *)
(* ===================================================================== *)

Definition str_is_empty (s : string) : bool :=
  match s with
  | EmptyString => true
  | String _ _ => false
  end.

(** [bool(x)] for [x : str | None]. *)
Definition truthy_str (o : option string) : bool :=
  match o with
  | Some s => negb (str_is_empty s)
  | None => false
  end.

(** [bool(x)] for an avatar: an empty [str] or [bytes] is false, a [Path]
    or a [BytesIO] object is always true. *)
Definition truthy_image (o : option image) : bool :=
  match o with
  | Some (ImgStr s) => negb (str_is_empty s)
  | Some (ImgBytes []) => false
  | Some _ => true
  | None => false
  end.

(** [x or d]. *)
Definition str_or (o : option string) (d : string) : string :=
  if truthy_str o then default d o else d.

Definition nl : string := String (ascii_of_nat 10) EmptyString.

(** [f"## {title}\n\n"]. *)
Definition heading (title : string) : string :=
  String.append "## " (String.append title (String.append nl nl)).

(** The text of a post: the title as a heading when there is one, then the
    body (lines 131-134 and 164-167). *)
Definition assemble_text (title : option string) (body : string) : string :=
  let text := EmptyString in
  let text :=
    if truthy_str title then String.append text (heading (default EmptyString title))
    else text in
  String.append text body.

(** The loop of lines 152-154: only [str] images are appended. *)
Fixpoint retweet_images_loop (imgs : list image) (acc : list string)
  : list string :=
  match imgs with
  | [] => acc
  | ImgStr s :: rest => retweet_images_loop rest (acc ++ [s])
  | _ :: rest => retweet_images_loop rest acc
  end.

Definition default_desc : string := "分享美好生活～".
Definition default_avatar : string :=
  "https://via.placeholder.com/100x100/FFB6C1/FFFFFF?text=头像".
Definition template_name : string := "popinparty.html.jinja".
Definition logo_name : string := "bang-dream-seeklogo.svg".
Definition white : Z * Z * Z := (255, 255, 255).

(* ===================================================================== *)
(** ** The theme *)
(* ===================================================================== *)

Section Theme.

Context (E : Collaborators).
Context (template_path : string).

Definition call_web_embed_image (img : image) : M string :=
  call (EvWebEmbedImage img) (web_embed_image E img).

Definition call_pic_merge (images : loc) (client : nat) : M loc :=
  pics <- read images;;
  emit (EvPicMerge images pics);;;
  (fun s =>
     let '(r, h) := pic_merge E (heap s) images client in
     (r, mkState h (trace s))).

(** [PopinPartyTheme.merge_pics]. *)
Definition merge_pics (images : loc) (client : nat) : M loc :=
  contents <- read images;;
  mergable <- call (EvIsPicsMergable images contents)
                   (is_pics_mergable E contents);;
  pics <- (if mergable : bool then call_pic_merge images client
           else ret images);;
  result <- read pics;;
  alloc result.

(** Lines 101-107 and 146-161: a [str] avatar is kept, any other is
    embedded, a false one gives [None]. *)
Definition resolve_avatar (avatar : option image) : M (option string) :=
  if truthy_image avatar then
    match avatar with
    | Some (ImgStr s) => ret (Some s)
    | Some img => url <- call_web_embed_image img;; ret (Some url)
    | None => ret None
    end
  else ret None.

(** The loop of lines 124-128. *)
Fixpoint image_urls_loop (imgs : list image) (acc : list string)
  : M (list string) :=
  match imgs with
  | [] => ret acc
  | ImgStr s :: rest => image_urls_loop rest (acc ++ [s])
  | img :: rest =>
      url <- call_web_embed_image img;;
      image_urls_loop rest (acc ++ [url])
  end.

(** [bool(post.images)]: the list is there and is not empty. *)
Definition truthy_images (o : option loc) : M bool :=
  match o with
  | Some l => xs <- read l;; ret (negb (Nat.eqb (List.length xs) 0))
  | None => ret false
  end.

(** Lines 117-128: the compositing list and the display list of the main
    content. *)
Definition parse_images (post : Post) (client : nat) : M (loc * list string) :=
  images <- alloc [];;
  has_images <- truthy_images (post_images post);;
  if has_images : bool then
    let l := default 0%nat (post_images post) in
    images <- merge_pics l client;;
    src <- read l;;
    image_urls <- image_urls_loop src [];;
    ret (images, image_urls)
  else ret (images, []).

(** Lines 142-174. *)
Definition parse_repost (repost : option Post) (images : loc) (client : nat)
  : M (option Retweet) :=
  match repost with
  | Some rp =>
      has_images <- truthy_images (post_images rp);;
      retweet_images <-
        (if has_images : bool then
           let l := default 0%nat (post_images rp) in
           repost_images <- merge_pics l client;;
           extend images repost_images;;;
           src <- read l;;
           ret (retweet_images_loop src [])
         else ret []);;
      retweet_avatar <- resolve_avatar (post_avatar rp);;
      let retweet_content := assemble_text (post_title rp) (post_content rp) in
      ret (Some (mkRetweet (post_nickname rp) (Some retweet_content)
                           retweet_images retweet_avatar))
  | None => ret None
  end.

(** Lines 176-180. *)
Definition format_timestamp (timestamp : option Z) : M string :=
  match timestamp with
  | Some ts =>
      if Z.eqb ts 0 then emit EvNow;;; ret (strftime_local E (now E))
      else ret (strftime_local E ts)
  | None => emit EvNow;;; ret (strftime_local E (now E))
  end.

(** [PopinPartyTheme.parse]. *)
Definition parse (post : Post) : M (PopinPartyCard * loc) :=
  match post_nickname post with
  | None | Some EmptyString =>
      raise (ThemeRenderUnsupportError "post.nickname is None")
  | Some nickname =>
      avatar_url <- resolve_avatar (post_avatar post);;
      let user :=
        mkUserInfo nickname
                   (Some (str_or (post_description post) default_desc))
                   (Some (str_or avatar_url default_avatar)) in
      http_client <- call EvGetClientForStatic (get_client_for_static E);;
      shown <- parse_images post http_client;;
      let '(images, image_urls) := shown in
      let content_text := assemble_text (post_title post) (post_content post) in
      let content := mkContent content_text image_urls (post_title post) in
      retweet <- parse_repost (post_repost post) images http_client;;
      timestamp_str <- format_timestamp (post_timestamp post);;
      qr <- (let data := str_or (post_url post) "No URL" in
             call (EvConvertToQr data) (convert_to_qr E data white));;
      qr_code <- call_web_embed_image qr;;
      ret (mkPopinPartyCard user content retweet qr_code timestamp_str
                            (platform_name (post_platform post)),
           images)
  end.

(** [embed_svg_as_data_url]. *)
Definition embed_svg_as_data_url (svg_path : string) : M string :=
  emit (EvPathExists svg_path);;;
  match read_text E svg_path with
  | None => ret EmptyString
  | Some r =>
      svg_content <- call (EvReadFile svg_path) r;;
      ret (String.append "data:image/svg+xml;base64," (b64encode E svg_content))
  end.

(** Lines 251-256. *)
Definition base_height (card : PopinPartyCard) : Z :=
  let base_height := 600 in
  let base_height :=
    match content_images (card_content card) with
    | [] => base_height
    | _ :: _ =>
        base_height + Z.of_nat (List.length (content_images (card_content card))) * 50
    end in
  match card_retweet card with
  | Some _ => base_height + 150
  | None => base_height
  end.

(** Lines 258-262. *)
Definition pages (card : PopinPartyCard) : PageOptions :=
  mkPageOptions 2 450 (Z.min (base_height card) 1200) (template_uri E).

(** The body of the [async with] block, lines 266-273. *)
Definition page_body (html : string) : M (list Byte.byte) :=
  call (EvGoto "about:blank") (page_goto E "about:blank");;;
  call (EvSetContent html) (page_set_content E html);;;
  call (EvWaitForTimeout 200) (page_wait_for_timeout E 200);;;
  call (EvScreenshot "jpeg" 90 true) (page_screenshot E "jpeg" 90 true).

(** The [async with get_new_page] block: the page is closed on
    every way out of the body. *)
Definition with_new_page (opts : PageOptions) (html : string)
  : M (list Byte.byte) :=
  call (EvGetNewPage opts) (get_new_page E opts);;;
  try_finally (page_body html) (call EvPageClose (page_close E)).

(** Lines 264-275. *)
Definition capture (opts : PageOptions) (html : string) : M (list Byte.byte) :=
  try_except (with_new_page opts html)
    (fun e => raise (ThemeRenderError
                       (String.append "Render error: " (exc_str e)) e)).

(** Lines 237-249. *)
Definition render_template (card : PopinPartyCard) : M string :=
  template <- call (EvGetTemplate template_name) (get_template E template_name);;
  bang_dream_logo <-
    embed_svg_as_data_url
      (String.append template_path (String.append "/" logo_name));;
  call (EvRenderAsync card bang_dream_logo)
       (render_async E template card bang_dream_logo).

(** [PopinPartyTheme.render]. *)
Definition render (post : Post) : M (list MessageSegmentFactory) :=
  parsed <- parse post;;
  let '(card, merged_images) := parsed in
  html <- render_template card;;
  screenshot <- capture (pages card) html;;
  ret [Image screenshot].

End Theme.

(* ===================================================================== *)
(** ** The helpers beside the theme *)
(* ===================================================================== *)

Section Helpers.

Context (E : Collaborators).

(** What opening and reading a file in binary mode gives: [None] when the
    path does not exist. *)
Context (read_bytes : string -> option (outcome (list Byte.byte))).

(** [embed_image_as_data_url]. *)
Definition embed_image_as_data_url (image_path : string) : M string :=
  emit (EvPathExists image_path);;;
  match read_bytes image_path with
  | None => ret EmptyString
  | Some r =>
      data <- call (EvReadFile image_path) r;;
      let image_data := b64encode E (string_of_list_byte data) in
      ret (String.append "data:image/png;base64," image_data)
  end.

(** [pics[0]] on an empty list. *)
Definition IndexError : pyexc := LowLevel true "list index out of range".

(** [PopinPartyTheme.extract_head_pic]. *)
Definition extract_head_pic (pics : loc) : M string :=
  contents <- read pics;;
  match contents with
  | [] => raise IndexError
  | ImgStr s :: _ => ret s
  | img :: _ => call_web_embed_image E img
  end.

End Helpers.

(* ===================================================================== *)
(** ** Joining two pictures *)
(* ===================================================================== *)

(** [a / b] on [int]s with [b = 0]. *)
Definition ZeroDivisionError : pyexc := LowLevel true "division by zero".

(** Sequencing of calls that return or raise and touch neither the heap of
    lists nor the trace. *)
Definition and_then {A B} (r : outcome A) (k : A -> outcome B) : outcome B :=
  match r with
  | Ok a => k a
  | Raise e => Raise e
  end.

Section CardLink.

(** PIL images, with the operations [card_link] uses: [img.size],
    [img.resize(size)], [Image.new(mode, size)] and [card.paste(img, box)],
    the last one giving the card as it is after the paste.  [int_true_div a
    b] is [int(a / b)] for [b <> 0], the float division being left to
    Python. *)
Context {pil : Type}.
Context (size : pil -> Z * Z).
Context (resize : pil -> Z * Z -> outcome pil).
Context (new : string -> Z * Z -> outcome pil).
Context (paste : pil -> pil -> Z * Z -> outcome pil).
Context (int_true_div : Z -> Z -> Z).

(** [int(h * w / w')]. *)
Definition scaled (h w w' : Z) : outcome Z :=
  if Z.eqb w' 0 then Raise ZeroDivisionError
  else Ok (int_true_div (h * w) w').

(** [PopinPartyTheme.card_link]. *)
Definition card_link (head_pic card_body : pil) : outcome pil :=
  let '(head_pic_w, head_pic_h) := size head_pic in
  let '(card_body_w, card_body_h) := size card_body in
  and_then
    (if Z.gtb head_pic_w card_body_w then
       and_then (scaled head_pic_h card_body_w head_pic_w) (fun h =>
       and_then (resize head_pic (card_body_w, h)) (fun head_pic =>
       Ok (head_pic, card_body)))
     else
       and_then (scaled card_body_h head_pic_w card_body_w) (fun h =>
       and_then (resize card_body (head_pic_w, h)) (fun card_body =>
       Ok (head_pic, card_body))))
    (fun pieces =>
       let '(head_pic, card_body) := pieces in
       and_then (new "RGBA" (fst (size head_pic),
                             snd (size head_pic) + snd (size card_body)))
                (fun card =>
       and_then (paste card head_pic (0, 0)) (fun card =>
       paste card card_body (0, snd (size head_pic))))).

(** What PIL promises about sizes: a resized or new image has the size that
    was asked for, and pasting into a card leaves the card's size alone. *)
Definition pil_keeps_sizes : Prop :=
  (forall img sz img', resize img sz = Ok img' -> size img' = sz)
  /\ (forall mode sz img, new mode sz = Ok img -> size img = sz)
  /\ (forall card img box card',
        paste card img box = Ok card' -> size card' = size card).

End CardLink.

(* ===================================================================== *)
(** ** Posts and collaborators to run the theme on *)
(* ===================================================================== *)

(** The post [p] with its repost replaced. *)
Definition with_repost (p : Post) (r : option Post) : Post :=
  mkPost (post_nickname p) (post_description p) (post_avatar p)
         (post_title p) (post_content p) (post_images p) r
         (post_timestamp p) (post_url p) (post_platform p).

Module Demo.

(** [strftime("%Y-%m-%d %H:%M:%S")] of an instant, for a host whose local
    zone is UTC. *)
Definition digit (n : Z) : string :=
  String (ascii_of_nat (48 + Z.to_nat (n mod 10))) EmptyString.

Definition pad2 (n : Z) : string := String.append (digit (n / 10)) (digit n).

Definition pad4 (n : Z) : string := String.append (pad2 (n / 100)) (pad2 n).

Definition civil_from_days (z : Z) : Z * Z * Z :=
  let z := z + 719468 in
  let era := z / 146097 in
  let doe := z - era * 146097 in
  let yoe := (doe - doe / 1460 + doe / 36524 - doe / 146096) / 365 in
  let doy := doe - (365 * yoe + yoe / 4 - yoe / 100) in
  let mp := (5 * doy + 2) / 153 in
  let d := doy - (153 * mp + 2) / 5 + 1 in
  let m := if mp <? 10 then mp + 3 else mp - 9 in
  let y := yoe + era * 400 + (if m <=? 2 then 1 else 0) in
  (y, m, d).

Definition strftime_utc (ts : Z) : string :=
  let '(y, m, d) := civil_from_days (ts / 86400) in
  let secs := ts mod 86400 in
  String.concat EmptyString
    [pad4 y; "-"; pad2 m; "-"; pad2 d; " ";
     pad2 (secs / 3600); ":"; pad2 (secs / 60 mod 60); ":"; pad2 (secs mod 60)].

(** A stand-in for [web_embed_image]: the payload is appended as it is. *)
Definition embed (img : image) : outcome string :=
  match img with
  | ImgStr _ => Raise (LowLevel true "pic_data must be bytes, Path or BytesIO")
  | ImgBytes b | ImgBytesIO b =>
      Ok (String.append "data:image/png;base64," (string_of_list_byte b))
  | ImgPath p => Ok (String.append "data:image/png;base64,file:" p)
  end.

(** A stand-in for [pic_merge]: a new list holding the first picture. *)
Definition merge_first (h : Heap) (l : loc) (client : nat) : outcome loc * Heap :=
  (Ok (List.length h), h ++ [take 1 (deref h l)]).

Definition collaborators (mergable : bool) (html : outcome string)
    (shot : outcome (list Byte.byte)) : Collaborators :=
  {| web_embed_image := embed;
     get_client_for_static := Ok 0%nat;
     is_pics_mergable := fun _ => Ok mergable;
     pic_merge := merge_first;
     convert_to_qr := fun data _ => Ok (ImgBytes (list_byte_of_string data));
     now := 1700000000;
     strftime_local := strftime_utc;
     get_template := fun _ => Ok 0%nat;
     read_text := fun _ => None;
     b64encode := fun s => s;
     render_async := fun _ _ _ => html;
     template_uri := "file:///theme/templates";
     get_new_page := fun _ => Ok tt;
     page_goto := fun _ => Ok tt;
     page_set_content := fun _ => Ok tt;
     page_wait_for_timeout := fun _ => Ok tt;
     page_screenshot := fun _ _ _ => shot;
     page_close := Ok tt |}.

Definition jpeg : list Byte.byte := [Byte.xff; Byte.xd8; Byte.xff].

Definition plain : Collaborators := collaborators false (Ok "<html></html>") (Ok jpeg).

(** jinja2 fails while rendering the template. *)
Definition undefined_error : pyexc :=
  LowLevel true "UndefinedError: 'card' is undefined".

Definition broken_template : Collaborators :=
  collaborators false (Raise undefined_error) (Ok jpeg).

(** The browser fails while taking the screenshot. *)
Definition timeout_error : pyexc :=
  LowLevel true "TimeoutError: Timeout 30000ms exceeded.".

Definition broken_screenshot : Collaborators :=
  collaborators false (Ok "<html></html>") (Raise timeout_error).

Definition template_path : string := "/theme/templates".

Definition bilibili : Platform := mkPlatform "bilibili".

Definition bare (nickname : option string) (body : string) : Post :=
  mkPost nickname None None None body None None None None bilibili.

Definition hello : Post := bare (Some "A") "hello".

Definition start : State := mkState [] [].

(** Three pictures, the middle one given as raw bytes. *)
Definition gallery : list image :=
  [ImgStr "https://i.example/1.png";
   ImgBytes [Byte.x89; Byte.x50];
   ImgStr "https://i.example/2.png"].

(** A heap that holds the gallery at reference 0. *)
Definition shelf : State := mkState [gallery] [].

(** A post that shows the gallery itself. *)
Definition album : Post :=
  mkPost (Some "A") None None None "hello" (Some 0%nat) None None None bilibili.

(** A post that forwards another one, which shows the gallery. *)
Definition forward : Post :=
  with_repost hello
    (Some (mkPost (Some "B") None None None "original" (Some 0%nat) None
                  None None bilibili)).

(** A post that forwards a post with nothing in it. *)
Definition forward_nothing : Post :=
  with_repost hello (Some (bare None EmptyString)).

(** A post dated at the epoch itself. *)
Definition epoch : Post :=
  mkPost (Some "A") None None None "hello" None None (Some 0) None bilibili.

End Demo.

(** More collaborators and posts, for the helpers and the failure paths. *)
Module Fixtures.



Definition logo_path : string := "/theme/templates/bang-dream-seeklogo.svg".

(** The logo file is there. *)
Definition with_logo : Collaborators :=
  {| web_embed_image := web_embed_image Demo.plain;
     get_client_for_static := get_client_for_static Demo.plain;
     is_pics_mergable := is_pics_mergable Demo.plain;
     pic_merge := pic_merge Demo.plain;
     convert_to_qr := convert_to_qr Demo.plain;
     now := now Demo.plain;
     strftime_local := strftime_local Demo.plain;
     get_template := get_template Demo.plain;
     read_text := fun p => if String.eqb p logo_path
                           then Some (Ok "<svg/>") else None;
     b64encode := b64encode Demo.plain;
     render_async := render_async Demo.plain;
     template_uri := template_uri Demo.plain;
     get_new_page := get_new_page Demo.plain;
     page_goto := page_goto Demo.plain;
     page_set_content := page_set_content Demo.plain;
     page_wait_for_timeout := page_wait_for_timeout Demo.plain;
     page_screenshot := page_screenshot Demo.plain;
     page_close := page_close Demo.plain |}.

(** A directory with one picture file in it. *)
Definition disk (p : string) : option (outcome (list Byte.byte)) :=
  if String.eqb p "/pics/a.png" then Some (Ok [Byte.x89; Byte.x50; Byte.x4e])
  else None.

(** Pictures reduced to their sizes, with a PIL that always succeeds. *)
Definition boxes_resize (img : Z * Z) (sz : Z * Z) : outcome (Z * Z) := Ok sz.
Definition boxes_new (mode : string) (sz : Z * Z) : outcome (Z * Z) := Ok sz.
Definition boxes_paste (card img : Z * Z) (box : Z * Z) : outcome (Z * Z) :=
  Ok card.

(** A post with its own pictures that forwards a post with pictures. *)
Definition both : Post :=
  mkPost (Some "A") None (Some (ImgBytes [Byte.x01])) (Some "News") "hello"
         (Some 0%nat)
         (Some (mkPost (Some "B") None None None "original" (Some 1%nat) None
                       None None Demo.bilibili))
         (Some 1700000000) (Some "https://example.org/p/1") Demo.bilibili.

(** A heap with the gallery at 0 and two more pictures at 1. *)
Definition shelves : State :=
  mkState [Demo.gallery; [ImgStr "https://i.example/3.png"; ImgPath "/pics/a.png"]]
          [].

End Fixtures.

(* ===================================================================== *)
(** ** Vocabulary of the statements *)
(* ===================================================================== *)

(** The contract of the merge collaborator towards the list it is handed:
    whatever else it does to the heap, and whether it returns or raises, that
    list holds afterwards what it held before. *)
Definition pic_merge_keeps_input (E : Collaborators) : Prop :=
  forall (h : Heap) (l : loc) (client : nat) (xs : list image)
         (r : outcome loc) (h' : Heap),
    h !! l = Some xs -> pic_merge E h l client = (r, h') -> h' !! l = Some xs.

(** Run from [s], the computation [m] only appends events that satisfy [Q]
    to the trace, whether it returns or raises. *)
Definition adds_at {A} (s : State) (Q : event -> Prop) (m : M A) : Prop :=
  forall r s', m s = (r, s') ->
    exists evs, trace s' = trace s ++ evs /\ Forall Q evs.

(** Run from [s], the computation [m] leaves the heap as it is. *)
Definition keeps_heap_at {A} (s : State) (m : M A) : Prop :=
  forall r s', m s = (r, s') -> heap s' = heap s.

(** The list and the pictures a call of the image aggregator was made on. *)
Definition aggregator_call (e : event) : option (loc * list image) :=
  match e with
  | EvIsPicsMergable l pics | EvPicMerge l pics => Some (l, pics)
  | _ => None
  end.

(** A post whose [images] field is [None] or an empty list. *)
Definition no_images (h : Heap) (post : Post) : Prop :=
  match post_images post with
  | None => True
  | Some l => h !! l = Some []
  end.

(** An event that, when it is a call of the image aggregator, is a call on
    the repost's own list of pictures, and that list is not empty. *)
Definition on_repost_images (repost : option Post) (e : event) : Prop :=
  forall l pics, aggregator_call e = Some (l, pics) ->
    exists rp, repost = Some rp /\ post_images rp = Some l /\ pics <> [].

(** The text the QR code is made from, [post.url or "No URL"]. *)
Definition qr_data (post : Post) : string := str_or (post_url post) "No URL".

(** What a run returned, if it returned. *)
Definition returned {A} (run : outcome A * State) : option A :=
  match fst run with
  | Ok a => Some a
  | Raise _ => None
  end.

(** Every field of the retweet is empty: no author or an empty one, no
    content or an empty one, no picture, no avatar or an empty one. *)
Definition retweet_all_empty (rt : Retweet) : bool :=
  negb (truthy_str (retweet_author rt))
  && negb (truthy_str (retweet_content rt))
  && match retweet_images rt with [] => true | _ :: _ => false end
  && negb (truthy_str (retweet_avatar rt)).

(** The display reference of a [str] picture. *)
Definition url_of (img : image) : option string :=
  match img with
  | ImgStr u => Some u
  | _ => None
  end.

(** The events of a page that was opened with [opts], shown [html],
    captured and closed. *)
Definition page_events (opts : PageOptions) (html : string) : list event :=
  [EvGetNewPage opts; EvGoto "about:blank"; EvSetContent html;
   EvWaitForTimeout 200; EvScreenshot "jpeg" 90 true; EvPageClose].


(** Every list of [h] is in [h'] with the same contents. *)
Definition heap_le (h h' : Heap) : Prop :=
  forall l xs, h !! l = Some xs -> h' !! l = Some xs.

(** The merge collaborator changes no list that exists when it is called:
    what it builds, it builds in new lists. *)
Definition pic_merge_frames (E : Collaborators) : Prop :=
  forall (h : Heap) (l : loc) (client : nat) (r : outcome loc) (h' : Heap),
    pic_merge E h l client = (r, h') -> heap_le h h'.

(** The pictures behind an [images] field. *)
Definition source_images (h : Heap) (o : option loc) : list image :=
  match o with
  | Some l => deref h l
  | None => []
  end.

(** The [images] field, when it is a list, is a list of the heap. *)
Definition images_live (h : Heap) (o : option loc) : Prop :=
  match o with
  | Some l => is_Some (h !! l)
  | None => True
  end.

(** The lists a post refers to, its own and its repost's, are in the heap. *)
Definition post_live (h : Heap) (post : Post) : Prop :=
  images_live h (post_images post)
  /\ match post_repost post with
     | Some rp => images_live h (post_images rp)
     | None => True
     end.

(** [ref] is the display reference of [img]: the string itself, or what
    the embedding gives. *)
Definition display_of (E : Collaborators) (img : image) (ref : string) : Prop :=
  match img with
  | ImgStr u => ref = u
  | _ => web_embed_image E img = Ok ref
  end.

(** What [parse] may ask of the outside world for a given post. *)
Definition parse_footprint (post : Post) (e : event) : Prop :=
  match e with
  | EvWebEmbedImage _ | EvGetClientForStatic
  | EvIsPicsMergable _ _ | EvPicMerge _ _ => True
  | EvConvertToQr data => data = qr_data post
  | EvNow => post_timestamp post = None \/ post_timestamp post = Some 0
  | _ => False
  end.

(** The events of the browser page. *)
Definition page_event (e : event) : bool :=
  match e with
  | EvGetNewPage _ | EvGoto _ | EvSetContent _ | EvWaitForTimeout _
  | EvScreenshot _ _ _ | EvPageClose => true
  | _ => false
  end.

(** What is done with an open page. *)
Definition page_use (e : event) : bool :=
  match e with
  | EvGoto _ | EvSetContent _ | EvWaitForTimeout _ | EvScreenshot _ _ _ => true
  | _ => false
  end.

(** Some uses of the page, then its closing, and nothing after. *)
Definition used_then_closed (evs : list event) : bool :=
  match rev evs with
  | EvPageClose :: used => forallb page_use used
  | _ => false
  end.

(** The ways the page part of a run can look: no page asked for, a page
    asked for and refused, or a page opened, used, and closed last. *)
Definition page_run (E : Collaborators) (evs : list event) : Prop :=
  evs = []
  \/ (exists opts e, evs = [EvGetNewPage opts] /\ get_new_page E opts = Raise e)
  \/ (exists opts rest,
        evs = EvGetNewPage opts :: rest
        /\ get_new_page E opts = Ok tt
        /\ used_then_closed rest = true).



(** The exception came out of the browser page. *)
Definition page_raised (E : Collaborators) (e : pyexc) : Prop :=
  (exists opts, get_new_page E opts = Raise e)
  \/ (exists url, page_goto E url = Raise e)
  \/ (exists html, page_set_content E html = Raise e)
  \/ (exists ms, page_wait_for_timeout E ms = Raise e)
  \/ (exists t q f, page_screenshot E t q f = Raise e)
  \/ page_close E = Raise e.

(** Run from [s], the computation [m] changes no list of the heap other
    than those in [X]. *)
Definition frames_at {A} (s : State) (X : loc -> Prop) (m : M A) : Prop :=
  forall r s', m s = (r, s') ->
    forall l xs, ~ X l -> heap s !! l = Some xs -> heap s' !! l = Some xs.

(** The part of a string after its first [n] characters. *)
Definition string_drop (n : nat) (s : string) : string :=
  substring n (String.length s - n) s.

(* ===================================================================== *)
(** ** Running monadic code *)
(* ===================================================================== *)

Lemma bind_ok_inv {A B} (m : M A) (k : A -> M B) s b s' :
  bind m k s = (Ok b, s') ->
  exists a s1, m s = (Ok a, s1) /\ k a s1 = (Ok b, s').
Proof.
  unfold bind. destruct (m s) as [[a | e] s1]; intros H.
  - exists a, s1. split; [reflexivity | exact H].
  - discriminate H.
Qed.

Lemma bind_run_ok {A B} (m : M A) (k : A -> M B) s a s1 :
  m s = (Ok a, s1) -> bind m k s = k a s1.
Proof. unfold bind. intros ->. reflexivity. Qed.

Lemma bind_run_raise {A B} (m : M A) (k : A -> M B) s e s1 :
  m s = (Raise e, s1) -> bind m k s = (Raise e, s1).
Proof. unfold bind. intros ->. reflexivity. Qed.

Lemma call_ok_inv {A} ev (r : outcome A) s a s' :
  call ev r s = (Ok a, s') ->
  r = Ok a /\ s' = mkState (heap s) (trace s ++ [ev]).
Proof.
  unfold call, bind, emit. simpl. intros H.
  injection H as H1 H2. split; [exact H1 | symmetry; exact H2].
Qed.

(** Peel the next step off a run that is known to have returned. *)
Ltac step H :=
  let a := fresh "a" in
  let s1 := fresh "s" in
  let H1 := fresh "Hrun" in
  apply bind_ok_inv in H as (a & s1 & H1 & H).

Lemma bind_inv {A B} (m : M A) (k : A -> M B) s r s' :
  bind m k s = (r, s') ->
  (exists a s1, m s = (Ok a, s1) /\ k a s1 = (r, s'))
  \/ (exists e, m s = (Raise e, s') /\ r = Raise e).
Proof.
  unfold bind. destruct (m s) as [[a | e] s1]; intros H.
  - left. exists a, s1. split; [reflexivity | exact H].
  - right. injection H as <- <-. exists e. split; reflexivity.
Qed.

Section Footprint.

Context {A B : Type}.
Implicit Types (Q : event -> Prop) (s : State).

Lemma adds_at_weaken Q Q' s (m : M A) :
  (forall e, Q e -> Q' e) -> adds_at s Q m -> adds_at s Q' m.
Proof.
  intros Himp Hm r s' Hrun. destruct (Hm r s' Hrun) as (evs & Ht & Hq).
  exists evs. split; [exact Ht|]. eapply Forall_impl; eauto.
Qed.

Lemma adds_at_ret Q s (a : A) : adds_at s Q (ret a).
Proof.
  intros r s' H. injection H as _ <-. exists []. split; [|constructor].
  symmetry. apply app_nil_r.
Qed.

Lemma adds_at_raise Q s e : adds_at s Q (@raise A e).
Proof.
  intros r s' H. injection H as _ <-. exists []. split; [|constructor].
  symmetry. apply app_nil_r.
Qed.

Lemma adds_at_call Q s ev (r : outcome A) : Q ev -> adds_at s Q (call ev r).
Proof.
  intros Hq r' s' H. unfold call, bind, emit in H. simpl in H.
  injection H as _ <-. exists [ev]. split; [reflexivity|].
  constructor; [exact Hq | constructor].
Qed.

Lemma adds_at_bind Q s (m : M A) (k : A -> M B) :
  adds_at s Q m ->
  (forall a s1, m s = (Ok a, s1) -> adds_at s1 Q (k a)) ->
  adds_at s Q (bind m k).
Proof.
  intros Hm Hk r s' Hrun.
  destruct (bind_inv _ _ _ _ _ Hrun) as [(a & s1 & H1 & H2) | (e & H1 & _)].
  - destruct (Hm _ _ H1) as (evs1 & Ht1 & Hq1).
    destruct (Hk _ _ H1 _ _ H2) as (evs2 & Ht2 & Hq2).
    exists (evs1 ++ evs2). split.
    + rewrite Ht2, Ht1. symmetry. apply app_assoc.
    + apply Forall_app. split; assumption.
  - exact (Hm _ _ H1).
Qed.

Lemma keeps_heap_at_ret s (a : A) : keeps_heap_at s (ret a).
Proof. intros r s' H. injection H as _ <-. reflexivity. Qed.

Lemma keeps_heap_at_call s ev (r : outcome A) : keeps_heap_at s (call ev r).
Proof.
  intros r' s' H. unfold call, bind, emit in H. simpl in H.
  injection H as _ <-. reflexivity.
Qed.

Lemma keeps_heap_at_bind s (m : M A) (k : A -> M B) :
  keeps_heap_at s m ->
  (forall a s1, m s = (Ok a, s1) -> keeps_heap_at s1 (k a)) ->
  keeps_heap_at s (bind m k).
Proof.
  intros Hm Hk r s' Hrun.
  destruct (bind_inv _ _ _ _ _ Hrun) as [(a & s1 & H1 & H2) | (e & H1 & _)].
  - rewrite (Hk _ _ H1 _ _ H2). exact (Hm _ _ H1).
  - exact (Hm _ _ H1).
Qed.

End Footprint.

Lemma adds_at_emit Q s ev : Q ev -> adds_at s Q (emit ev).
Proof.
  intros Hq r s' H. unfold emit in H. injection H as _ <-.
  exists [ev]. split; [reflexivity|]. constructor; [exact Hq | constructor].
Qed.

Lemma keeps_heap_at_emit s ev : keeps_heap_at s (emit ev).
Proof. intros r s' H. unfold emit in H. injection H as _ <-. reflexivity. Qed.

Lemma read_run l s : read l s = (Ok (deref (heap s) l), s).
Proof. reflexivity. Qed.

(* ===================================================================== *)
(** ** C2: a post without a nickname *)
(* ===================================================================== *)

(** C2.  When the nickname is absent or the empty string, [render] raises
    [ThemeRenderUnsupportError] and leaves the state exactly as it found it:
    no collaborator was called (the trace has no new event), no list was
    created, no card was built and no rendering was tried. *)
Theorem render_rejects_missing_nickname
    (E : Collaborators) (template_path : string) (post : Post) (s : State) :
  post_nickname post = None \/ post_nickname post = Some EmptyString ->
  render E template_path post s
  = (Raise (ThemeRenderUnsupportError "post.nickname is None"), s).
Proof.
  intros H. unfold render, bind, parse.
  destruct H as [-> | ->]; reflexivity.
Qed.

Lemma render_rejects_missing_nickname_witness :
  render Demo.plain Demo.template_path (Demo.bare (Some EmptyString) "hi") Demo.start
  = (Raise (ThemeRenderUnsupportError "post.nickname is None"), Demo.start).
Proof.
  apply (render_rejects_missing_nickname Demo.plain Demo.template_path
           (Demo.bare (Some EmptyString) "hi") Demo.start).
  right. reflexivity.
Defined.

(* ===================================================================== *)
(** ** C10: one level of repost *)
(* ===================================================================== *)

(** C10.  Whatever is nested inside the post's own repost, [parse] gives the
    same result and the same state: it reads one level of repost only.  A
    [Retweet] is four fields of strings and nothing else, so no retweet can
    sit inside it. *)
Theorem parse_reads_one_repost_level
    (E : Collaborators) (post rp : Post) (nested1 nested2 : option Post)
    (s : State) :
  parse E (with_repost post (Some (with_repost rp nested1))) s
  = parse E (with_repost post (Some (with_repost rp nested2))) s
  /\ forall rt : Retweet,
       rt = mkRetweet (retweet_author rt) (retweet_content rt)
                      (retweet_images rt) (retweet_avatar rt).
Proof.
  split.
  - reflexivity.
  - intros [a c i v]. reflexivity.
Qed.

(* ===================================================================== *)
(** ** C8: [merge_pics] *)
(* ===================================================================== *)

Lemma lookup_alloc_old (h : Heap) (l : loc) (xs ys : list image) :
  h !! l = Some xs -> (h ++ [ys]) !! l = Some xs.
Proof. intros H. apply lookup_app_l_Some. exact H. Qed.

Lemma lookup_alloc_new (h : Heap) (ys : list image) :
  (h ++ [ys]) !! List.length h = Some ys.
Proof.
  rewrite lookup_app_r by reflexivity.
  replace (List.length h - List.length h)%nat with 0%nat by lia. reflexivity.
Qed.

Lemma deref_lookup (h : Heap) (l : loc) (xs : list image) :
  h !! l = Some xs -> deref h l = xs.
Proof. unfold deref. intros ->. reflexivity. Qed.

(** C8.  For a list [xs] that lives at [images]: when the merge predicate
    answers false, [merge_pics] returns a new list holding exactly [xs], in
    the same order, and touches nothing else in the heap; and in every case
    (mergeable or not, returning or raising) the list at [images] holds [xs]
    afterwards, given that the merge collaborator keeps its input. *)
Theorem merge_pics_passes_through
    (E : Collaborators) (images : loc) (client : nat) (xs : list image)
    (s s' : State) (r : outcome loc) :
  heap s !! images = Some xs ->
  merge_pics E images client s = (r, s') ->
  (is_pics_mergable E xs = Ok false ->
     r = Ok (List.length (heap s))
     /\ heap s' = heap s ++ [xs]
     /\ heap s' !! List.length (heap s) = Some xs
     /\ List.length (heap s) <> images)
  /\ (pic_merge_keeps_input E -> heap s' !! images = Some xs).
Proof.
  intros Hlive Hrun.
  pose proof (deref_lookup _ _ _ Hlive) as Hd.
  unfold merge_pics, bind, read, call, emit, bind in Hrun. simpl in Hrun.
  rewrite Hd in Hrun.
  destruct (is_pics_mergable E xs) as [[|] | e] eqn:Hm.
  - (* mergeable: the collaborator runs *)
    split; [discriminate|]. intros Hkeep.
    unfold call_pic_merge, bind, read, emit in Hrun. simpl in Hrun.
    destruct (pic_merge E (heap s) images client) as [[l' | e] h'] eqn:Hp;
      simpl in Hrun; injection Hrun as <- <-; simpl;
      pose proof (Hkeep _ _ _ _ _ _ Hlive Hp) as Hk.
    + apply lookup_alloc_old. exact Hk.
    + exact Hk.
  - (* not mergeable: a copy *)
    simpl in Hrun. unfold alloc in Hrun. simpl in Hrun. rewrite Hd in Hrun.
    injection Hrun as <- <-. simpl. split.
    + intros _. repeat split.
      * apply lookup_alloc_new.
      * intros Heq. apply lookup_lt_Some in Hlive. lia.
    + intros _. apply lookup_alloc_old. exact Hlive.
  - (* the predicate raises *)
    injection Hrun as <- <-. simpl. split; [discriminate|].
    intros _. exact Hlive.
Qed.

Lemma demo_merge_keeps_input mergable html shot :
  pic_merge_keeps_input (Demo.collaborators mergable html shot).
Proof.
  intros h l client xs r h' Hlive Hrun. simpl in Hrun.
  unfold Demo.merge_first in Hrun. injection Hrun as _ <-.
  apply lookup_alloc_old. exact Hlive.
Qed.

Lemma merge_pics_passes_through_witness :
  let pics := [ImgStr "https://i.example/1.png"; ImgBytes [Byte.x89]] in
  let s := mkState [pics] [] in
  fst (merge_pics Demo.plain 0%nat 7%nat s) = Ok 1%nat
  /\ heap (snd (merge_pics Demo.plain 0%nat 7%nat s)) = [pics; pics]
  /\ heap (snd (merge_pics Demo.plain 0%nat 7%nat s)) !! 0%nat = Some pics.
Proof.
  intros pics s.
  destruct (merge_pics_passes_through Demo.plain 0%nat 7%nat pics s
              (snd (merge_pics Demo.plain 0%nat 7%nat s))
              (fst (merge_pics Demo.plain 0%nat 7%nat s))
              eq_refl (surjective_pairing _)) as [Hcopy Hkeep].
  destruct (Hcopy eq_refl) as (Hr & Hh & _ & _).
  split; [exact Hr|]. split; [exact Hh|].
  apply Hkeep. apply demo_merge_keeps_input.
Defined.

(* ===================================================================== *)
(** ** C1: which exceptions [render] wraps *)
(* ===================================================================== *)

Lemma with_new_page_closes E opts html s r s' :
  with_new_page E opts html s = (r, s') ->
  get_new_page E opts = Ok tt ->
  last (trace s') = Some EvPageClose.
Proof.
  intros Hrun Hopen.
  unfold with_new_page, call at 1, bind, emit in Hrun. simpl in Hrun.
  rewrite Hopen in Hrun. unfold try_finally in Hrun.
  destruct (page_body E html _) as [rb sb].
  unfold call, bind, emit in Hrun. simpl in Hrun.
  destruct (page_close E) as [[] | e]; injection Hrun as _ <-; simpl;
    apply last_snoc.
Qed.

(** C1, as the code has it.  After a successful [parse]: an exception raised
    while the template is loaded or rendered leaves [render] as it is, since
    that stage runs outside the [try] block; every exception that is an
    instance of [Exception] and leaves the [async with get_new_page] block
    (opening the page, navigation, setting the content, the wait, the
    screenshot, closing the page) is caught and raised again as
    [ThemeRenderError] with the text [Render error: ] followed by the
    original text and with the original exception as its cause, and then the
    page that had been opened has been closed. *)
Theorem render_wraps_page_exceptions
    (E : Collaborators) (template_path : string) (post : Post)
    (card : PopinPartyCard) (imgs : loc) (s s1 : State) :
  parse E post s = (Ok (card, imgs), s1) ->
  (forall e s2,
      render_template E template_path card s1 = (Raise e, s2) ->
      render E template_path post s = (Raise e, s2))
  /\ (forall html s2 e s3,
        render_template E template_path card s1 = (Ok html, s2) ->
        with_new_page E (pages E card) html s2 = (Raise e, s3) ->
        isinstance_Exception e = true ->
        render E template_path post s
        = (Raise (ThemeRenderError (String.append "Render error: " (exc_str e)) e),
           s3)
        /\ (get_new_page E (pages E card) = Ok tt ->
            last (trace s3) = Some EvPageClose)).
Proof.
  intros Hparse. split.
  - intros e s2 Htpl. unfold render.
    rewrite (bind_run_ok _ _ _ _ _ Hparse). simpl.
    apply bind_run_raise. exact Htpl.
  - intros html s2 e s3 Htpl Hpage Hexc. split.
    + unfold render.
      rewrite (bind_run_ok _ _ _ _ _ Hparse). simpl.
      rewrite (bind_run_ok _ _ _ _ _ Htpl).
      apply bind_run_raise.
      unfold capture, try_except. rewrite Hpage, Hexc. reflexivity.
    + intros Hopen. exact (with_new_page_closes _ _ _ _ _ _ Hpage Hopen).
Qed.

Lemma render_wraps_page_exceptions_witness :
  fst (render Demo.broken_screenshot Demo.template_path Demo.hello Demo.start)
  = Raise (ThemeRenderError
             "Render error: TimeoutError: Timeout 30000ms exceeded."
             Demo.timeout_error).
Proof.
  pose (E := Demo.broken_screenshot).
  pose (p := parse E Demo.hello Demo.start).
  pose (card := fst (default (mkPopinPartyCard (mkUserInfo EmptyString None None)
                                (mkContent EmptyString [] None) None
                                EmptyString EmptyString EmptyString, 0%nat)
                       (match fst p with Ok a => Some a | Raise _ => None end))).
  pose (t := render_template E Demo.template_path card (snd p)).
  pose (w := with_new_page E (pages E card) "<html></html>" (snd t)).
  destruct (render_wraps_page_exceptions E Demo.template_path Demo.hello
              card 0%nat Demo.start (snd p) eq_refl) as [_ Hwrap].
  destruct (Hwrap "<html></html>" (snd t) Demo.timeout_error (snd w)
              eq_refl eq_refl eq_refl) as [Hr _].
  exact (f_equal fst Hr).
Defined.

(** C1 as stated fails: with a template whose rendering raises, [render]
    lets that very exception out, and it is no [ThemeRenderError]. *)
Lemma template_exception_escapes_render :
  render_async Demo.broken_template 0%nat
    (mkPopinPartyCard (mkUserInfo "A" None None) (mkContent "hello" [] None)
                      None EmptyString EmptyString EmptyString) EmptyString
  = Raise Demo.undefined_error
  /\ fst (render Demo.broken_template Demo.template_path Demo.hello Demo.start)
     = Raise Demo.undefined_error
  /\ (forall msg cause, Demo.undefined_error <> ThemeRenderError msg cause).
Proof.
  split; [reflexivity|]. split; [reflexivity|].
  intros msg cause H. discriminate H.
Qed.

(* ===================================================================== *)
(** ** The pieces of [parse] *)
(* ===================================================================== *)

Section Pieces.

Context (E : Collaborators).
Implicit Types (Q : event -> Prop) (s : State).

Lemma resolve_avatar_adds Q s avatar :
  (forall img, Q (EvWebEmbedImage img)) ->
  adds_at s Q (resolve_avatar E avatar).
Proof.
  intros Hq. unfold resolve_avatar.
  destruct (truthy_image avatar); [|apply adds_at_ret].
  destruct avatar as [[u | b | p | b] |]; try apply adds_at_ret;
    (apply adds_at_bind; [apply adds_at_call, Hq | intros; apply adds_at_ret]).
Qed.

Lemma resolve_avatar_keeps s avatar :
  keeps_heap_at s (resolve_avatar E avatar).
Proof.
  unfold resolve_avatar.
  destruct (truthy_image avatar); [|apply keeps_heap_at_ret].
  destruct avatar as [[u | b | p | b] |]; try apply keeps_heap_at_ret;
    (apply keeps_heap_at_bind;
     [apply keeps_heap_at_call | intros; apply keeps_heap_at_ret]).
Qed.

(** The instant the card shows: the post's own, unless it is absent or 0. *)
Lemma format_timestamp_run timestamp s :
  exists s',
    format_timestamp E timestamp s
    = (Ok (strftime_local E
             (match timestamp with
              | Some ts => if Z.eqb ts 0 then now E else ts
              | None => now E
              end)), s')
    /\ heap s' = heap s
    /\ (s' = s \/ trace s' = trace s ++ [EvNow]).
Proof.
  unfold format_timestamp. destruct timestamp as [ts |].
  - destruct (Z.eqb ts 0).
    + eexists. split; [reflexivity|]. split; [reflexivity | right; reflexivity].
    + exists s. split; [reflexivity|]. split; [reflexivity | left; reflexivity].
  - eexists. split; [reflexivity|]. split; [reflexivity | right; reflexivity].
Qed.

Lemma format_timestamp_adds Q s timestamp :
  Q EvNow -> adds_at s Q (format_timestamp E timestamp).
Proof.
  intros Hq r s' Hrun.
  destruct (format_timestamp_run timestamp s) as (s1 & H1 & _ & Ht).
  rewrite H1 in Hrun. injection Hrun as _ <-.
  destruct Ht as [-> | Ht].
  - exists []. split; [symmetry; apply app_nil_r | constructor].
  - exists [EvNow]. split; [exact Ht|]. constructor; [exact Hq | constructor].
Qed.

Lemma format_timestamp_keeps s timestamp :
  keeps_heap_at s (format_timestamp E timestamp).
Proof.
  intros r s' Hrun.
  destruct (format_timestamp_run timestamp s) as (s1 & H1 & Hh & _).
  rewrite H1 in Hrun. injection Hrun as _ <-. exact Hh.
Qed.

(** [merge_pics] calls the aggregator on the list it was given and on
    nothing else. *)
Lemma merge_pics_adds s images client :
  adds_at s
    (fun e => aggregator_call e = Some (images, deref (heap s) images))
    (merge_pics E images client).
Proof.
  intros r s' Hrun.
  unfold merge_pics, bind, read, call, emit, bind in Hrun. simpl in Hrun.
  destruct (is_pics_mergable E _) as [[|] | e].
  - unfold call_pic_merge, bind, read, emit in Hrun. simpl in Hrun.
    destruct (pic_merge E (heap s) images client) as [[l' | e] h'];
      simpl in Hrun; injection Hrun as _ <-; simpl;
      (eexists; split; [rewrite <- app_assoc; reflexivity|]);
      repeat constructor.
  - simpl in Hrun. injection Hrun as _ <-. simpl.
    eexists; split; [reflexivity|]. repeat constructor.
  - injection Hrun as _ <-. simpl.
    eexists; split; [reflexivity|]. repeat constructor.
Qed.

(** With no main pictures the step of lines 117-128 makes the empty list
    [images = []] and calls nobody. *)
Lemma parse_images_none post client s :
  no_images (heap s) post ->
  parse_images E post client s
  = (Ok (List.length (heap s), []), mkState (heap s ++ [[]]) (trace s)).
Proof.
  unfold no_images, parse_images, bind, alloc, truthy_images. simpl.
  destruct (post_images post) as [l |]; [|reflexivity].
  intros Hl. unfold bind, read, ret. simpl.
  rewrite (deref_lookup _ _ _ (lookup_alloc_old _ _ _ [] Hl)). reflexivity.
Qed.

Lemma adds_at_silent {A} Q s (m : M A) :
  (forall r s', m s = (r, s') -> trace s' = trace s) -> adds_at s Q m.
Proof.
  intros Hm r s' Hrun. exists []. split; [|constructor].
  rewrite (Hm _ _ Hrun). symmetry. apply app_nil_r.
Qed.

Lemma truthy_images_run o s :
  truthy_images o s
  = (Ok (match o with
         | Some l => negb (Nat.eqb (List.length (deref (heap s) l)) 0)
         | None => false
         end), s).
Proof. destruct o; reflexivity. Qed.

Lemma on_repost_images_other repost e :
  aggregator_call e = None -> on_repost_images repost e.
Proof. intros H l pics H'. rewrite H in H'. discriminate H'. Qed.

(** The calls of the aggregator made by lines 142-174 are calls on the
    repost's list, which is then not empty. *)
Lemma parse_repost_adds s repost images client :
  adds_at s (on_repost_images repost) (parse_repost E repost images client).
Proof.
  destruct repost as [rp |]; [|apply adds_at_ret].
  unfold parse_repost. apply adds_at_bind.
  { apply adds_at_silent. intros r s' H.
    rewrite truthy_images_run in H. injection H as _ <-. reflexivity. }
  intros has_images s1 Htruthy. rewrite truthy_images_run in Htruthy.
  injection Htruthy as <- <-.
  apply adds_at_bind.
  - destruct (post_images rp) as [l |] eqn:Hl; [|apply adds_at_ret].
    destruct (negb _) eqn:Hne; [|apply adds_at_ret]. simpl.
    apply adds_at_bind.
    + eapply adds_at_weaken; [|apply merge_pics_adds].
      intros e He l' pics Hcall. rewrite He in Hcall.
      injection Hcall as <- <-. exists rp. repeat split; [exact Hl|].
      intros Hnil. rewrite Hnil in Hne. discriminate Hne.
    + intros repost_images s2 _. apply adds_at_bind.
      { apply adds_at_silent. intros r s' H. injection H as _ <-. reflexivity. }
      intros _ s3 _. apply adds_at_bind.
      { apply adds_at_silent. intros r s' H. injection H as _ <-. reflexivity. }
      intros src s4 _. apply adds_at_ret.
  - intros retweet_images s2 _. apply adds_at_bind.
    + apply resolve_avatar_adds. intros img.
      apply on_repost_images_other. reflexivity.
    + intros retweet_avatar s3 _. apply adds_at_ret.
Qed.

(** What a returning [parse] went through. *)
Lemma parse_ok_inv post s card imgs s' :
  parse E post s = (Ok (card, imgs), s') ->
  exists nickname avatar_url sa client sc image_urls si retweet sr
         timestamp_str st qr sq qr_code,
    post_nickname post = Some nickname /\ str_is_empty nickname = false
    /\ resolve_avatar E (post_avatar post) s = (Ok avatar_url, sa)
    /\ call EvGetClientForStatic (get_client_for_static E) sa = (Ok client, sc)
    /\ parse_images E post client sc = (Ok (imgs, image_urls), si)
    /\ parse_repost E (post_repost post) imgs client si = (Ok retweet, sr)
    /\ format_timestamp E (post_timestamp post) sr = (Ok timestamp_str, st)
    /\ call (EvConvertToQr (qr_data post))
             (convert_to_qr E (qr_data post) white) st = (Ok qr, sq)
    /\ call_web_embed_image E qr sq = (Ok qr_code, s')
    /\ card = mkPopinPartyCard
                (mkUserInfo nickname
                   (Some (str_or (post_description post) default_desc))
                   (Some (str_or avatar_url default_avatar)))
                (mkContent (assemble_text (post_title post) (post_content post))
                           image_urls (post_title post))
                retweet qr_code timestamp_str
                (platform_name (post_platform post)).
Proof.
  unfold parse. intros H.
  destruct (post_nickname post) as [[| c nickname] |] eqn:Hn;
    [discriminate H | | discriminate H].
  step H. step H. step H. destruct a1 as [images image_urls].
  step H. step H. step H. step H.
  injection H as <- <- <-.
  do 14 eexists.
  repeat split; first [eassumption | reflexivity].
Qed.

End Pieces.

(* ===================================================================== *)
(** ** C9: a post without pictures *)
(* ===================================================================== *)

Lemma no_images_heap h h' post :
  h' = h -> no_images h post -> no_images h' post.
Proof. intros ->. exact id. Qed.

Lemma parse_adds_no_images E post s :
  no_images (heap s) post ->
  adds_at s (on_repost_images (post_repost post)) (parse E post).
Proof.
  intros Hno. unfold parse.
  assert (Hother : forall e, aggregator_call e = None ->
                             on_repost_images (post_repost post) e)
    by (intros e; apply on_repost_images_other).
  destruct (post_nickname post) as [[| c nickname] |];
    try apply adds_at_raise.
  apply adds_at_bind.
  { apply resolve_avatar_adds. intros img. apply Hother. reflexivity. }
  intros avatar_url sa Ha.
  apply adds_at_bind. { apply adds_at_call, Hother. reflexivity. }
  intros client sc Hc.
  assert (Hheap : heap sc = heap s).
  { rewrite (keeps_heap_at_call _ _ _ _ _ Hc).
    exact (resolve_avatar_keeps _ _ _ _ _ Ha). }
  pose proof (parse_images_none E post client sc
                (no_images_heap _ _ _ Hheap Hno)) as Himg.
  apply adds_at_bind.
  { apply adds_at_silent. intros r s' H. rewrite Himg in H.
    injection H as _ <-. reflexivity. }
  intros [images image_urls] si _.
  apply adds_at_bind. { apply parse_repost_adds. }
  intros retweet sr _.
  apply adds_at_bind. { apply format_timestamp_adds, Hother. reflexivity. }
  intros timestamp_str st _.
  apply adds_at_bind. { apply adds_at_call, Hother. reflexivity. }
  intros qr sq _.
  apply adds_at_bind. { apply adds_at_call, Hother. reflexivity. }
  intros qr_code sz _. apply adds_at_ret.
Qed.

(** C9.  Let the post's [images] be [None] or an empty list.  Whatever way
    [parse] ends, every call of the merge predicate or of the merge operation
    it makes is a call on the repost's own list of pictures, which is then
    not empty: none is made for the main content, and none at all when there
    is no repost.  When [parse] returns, [content.images] of the card is
    empty, and without a repost the returned compositing list is empty. *)
Theorem parse_without_images
    (E : Collaborators) (post : Post) (s s' : State)
    (r : outcome (PopinPartyCard * loc)) :
  no_images (heap s) post ->
  parse E post s = (r, s') ->
  (exists evs,
      trace s' = trace s ++ evs
      /\ forall e l pics,
           In e evs -> aggregator_call e = Some (l, pics) ->
           exists rp, post_repost post = Some rp
                      /\ post_images rp = Some l /\ pics <> [])
  /\ (forall card imgs,
        r = Ok (card, imgs) ->
        content_images (card_content card) = []
        /\ (post_repost post = None -> deref (heap s') imgs = [])).
Proof.
  intros Hno Hrun. split.
  - destruct (parse_adds_no_images E post s Hno r s' Hrun) as (evs & Ht & Hq).
    exists evs. split; [exact Ht|].
    intros e l pics Hin Hcall.
    rewrite Forall_forall in Hq. apply list_elem_of_In in Hin.
    exact (Hq e Hin l pics Hcall).
  - intros card imgs ->.
    destruct (parse_ok_inv E _ _ _ _ _ Hrun)
      as (nickname & avatar_url & sa & client & sc & image_urls & si & retweet
          & sr & timestamp_str & st & qr & sq & qr_code
          & _ & _ & Ha & Hc & Hi & Hr & Ht & Hq & Hw & ->).
    assert (Hheap : heap sc = heap s).
    { rewrite (keeps_heap_at_call _ _ _ _ _ Hc).
      exact (resolve_avatar_keeps _ _ _ _ _ Ha). }
    rewrite (parse_images_none E post client sc
               (no_images_heap _ _ _ Hheap Hno)) in Hi.
    injection Hi as <- <- <-. simpl. split; [reflexivity|].
    intros Hnone. rewrite Hnone in Hr. injection Hr as _ <-.
    rewrite (keeps_heap_at_call _ _ _ _ _ Hw).
    rewrite (keeps_heap_at_call _ _ _ _ _ Hq).
    rewrite (format_timestamp_keeps _ _ _ _ _ Ht). simpl.
    apply deref_lookup, lookup_alloc_new.
Qed.

Lemma parse_without_images_witness :
  (exists evs,
      trace (snd (parse Demo.plain Demo.forward Demo.shelf))
      = trace Demo.shelf ++ evs
      /\ forall e l pics,
           In e evs -> aggregator_call e = Some (l, pics) ->
           exists rp, post_repost Demo.forward = Some rp
                      /\ post_images rp = Some l /\ pics <> [])
  /\ (forall card imgs,
        fst (parse Demo.plain Demo.forward Demo.shelf) = Ok (card, imgs) ->
        content_images (card_content card) = []
        /\ (post_repost Demo.forward = None ->
            deref (heap (snd (parse Demo.plain Demo.forward Demo.shelf))) imgs
            = [])).
Proof.
  apply (parse_without_images Demo.plain Demo.forward Demo.shelf
           (snd (parse Demo.plain Demo.forward Demo.shelf))
           (fst (parse Demo.plain Demo.forward Demo.shelf))).
  - exact I.
  - apply surjective_pairing.
Defined.

(* ===================================================================== *)
(** ** C3: the viewport *)
(* ===================================================================== *)

Lemma capture_ok_inv E opts html s shot s' :
  capture E opts html s = (Ok shot, s') ->
  trace s' = trace s ++ page_events opts html.
Proof.
  unfold capture, try_except.
  destruct (with_new_page E opts html s) as [[a | e] s1] eqn:Hpage.
  - intros H. injection H as _ <-.
    unfold with_new_page in Hpage. step Hpage.
    apply call_ok_inv in Hrun as [_ ->].
    unfold try_finally in Hpage.
    destruct (page_body E html _) as [[b | e] sb] eqn:Hbody.
    + unfold page_body in Hbody. step Hbody. step Hbody. step Hbody.
      apply call_ok_inv in Hrun as [_ ->].
      apply call_ok_inv in Hrun0 as [_ ->].
      apply call_ok_inv in Hrun1 as [_ ->].
      apply call_ok_inv in Hbody as [_ ->].
      destruct (call EvPageClose (page_close E) _) as [[[] | e] sc] eqn:Hclose;
        [|discriminate Hpage].
      apply call_ok_inv in Hclose as [_ ->].
      injection Hpage as _ <-. simpl.
      repeat rewrite <- app_assoc. reflexivity.
    + destruct (call EvPageClose (page_close E) sb) as [[[] | e'] sc];
        discriminate Hpage.
  - destruct (isinstance_Exception e); intros H; discriminate H.
Qed.

Lemma parse_repost_ok_inv E repost images client s retweet s' :
  parse_repost E repost images client s = (Ok retweet, s') ->
  match repost with
  | Some rp =>
      exists shown avatar sx sy,
        resolve_avatar E (post_avatar rp) sx = (Ok avatar, sy)
        /\ retweet = Some (mkRetweet (post_nickname rp)
                             (Some (assemble_text (post_title rp)
                                                  (post_content rp)))
                             shown avatar)
  | None => retweet = None
  end.
Proof.
  destruct repost as [rp |]; simpl.
  - intros H. step H. step H. step H. injection H as <- _.
    do 4 eexists. split; [eassumption | reflexivity].
  - intros H. injection H as <- _. reflexivity.
Qed.

(** C3.  When [render] returns, the page was opened with device scale
    factor 2, width 450 and height [min (600 + 50 k + 150 r) 1200], where [k]
    is the number of pictures in the card's [content.images] and [r] is 1 if
    the post has a repost and 0 if not; that page was then shown the
    rendered markup, captured and closed. *)
Theorem render_viewport
    (E : Collaborators) (template_path : string) (post : Post)
    (s s' : State) (msgs : list MessageSegmentFactory) :
  render E template_path post s = (Ok msgs, s') ->
  exists card imgs s1 html s2,
    parse E post s = (Ok (card, imgs), s1)
    /\ render_template E template_path card s1 = (Ok html, s2)
    /\ trace s'
       = trace s2 ++
         page_events
           (mkPageOptions 2 450
              (Z.min (600
                      + 50 * Z.of_nat (List.length
                                         (content_images (card_content card)))
                      + 150 * (match post_repost post with
                               | Some _ => 1
                               | None => 0
                               end))
                     1200)
              (template_uri E))
           html.
Proof.
  unfold render. intros H. step H. destruct a as [card imgs]. step H. step H.
  injection H as _ <-.
  exists card, imgs, s0, a, s1. split; [exact Hrun|]. split; [exact Hrun0|].
  rewrite (capture_ok_inv _ _ _ _ _ _ Hrun1). f_equal. unfold pages.
  f_equal. f_equal. f_equal.
  destruct (parse_ok_inv E _ _ _ _ _ Hrun)
    as (nickname & avatar_url & sa & client & sc & image_urls & si & retweet
        & sr & timestamp_str & st & qr & sq & qr_code
        & _ & _ & _ & _ & _ & Hr & _ & _ & _ & ->).
  apply parse_repost_ok_inv in Hr. unfold base_height. simpl.
  destruct (post_repost post) as [rp |].
  - destruct Hr as (shown & avatar & sx & sy & _ & ->).
    destruct image_urls; simpl List.length; lia.
  - rewrite Hr. destruct image_urls; simpl List.length; lia.
Qed.

Lemma render_viewport_witness :
  In (EvGetNewPage (mkPageOptions 2 450 750 "file:///theme/templates"))
     (trace (snd (render Demo.plain Demo.template_path Demo.album Demo.shelf))).
Proof.
  destruct (render_viewport Demo.plain Demo.template_path Demo.album
              Demo.shelf
              (snd (render Demo.plain Demo.template_path Demo.album Demo.shelf))
              [Image Demo.jpeg] eq_refl)
    as (card & imgs & s1 & html & s2 & Hparse & _ & Htrace).
  rewrite Htrace. apply in_or_app. right. left.
  vm_compute in Hparse. injection Hparse as <- _ _. reflexivity.
Defined.

(* ===================================================================== *)
(** ** C4: the pictures of the repost *)
(* ===================================================================== *)

(** The loop of lines 152-154 keeps the [str] pictures, in order, and drops
    every other picture: it has no [else] branch. *)
Lemma retweet_images_loop_urls (imgs : list image) (acc : list string) :
  retweet_images_loop imgs acc = acc ++ omap url_of imgs.
Proof.
  revert acc. induction imgs as [| img rest IH]; intros acc; simpl.
  - symmetry. apply app_nil_r.
  - destruct img; simpl; rewrite IH; try reflexivity.
    rewrite <- app_assoc. reflexivity.
Qed.

(** C4, on the code.  A repost shows three pictures, the second one as raw
    bytes.  The retweet's display list has two entries only: the bytes
    picture is left out, not embedded.  The same three pictures shown by the
    main content give three entries, the second one embedded. *)
Theorem repost_bytes_picture_is_dropped :
  option_map (fun r => option_map retweet_images (card_retweet (fst r)))
             (returned (parse Demo.plain Demo.forward Demo.shelf))
  = Some (Some ["https://i.example/1.png"; "https://i.example/2.png"])
  /\ option_map (fun r => content_images (card_content (fst r)))
                (returned (parse Demo.plain Demo.album Demo.shelf))
     = Some ["https://i.example/1.png";
             String.append "data:image/png;base64,"
                           (string_of_list_byte [Byte.x89; Byte.x50]);
             "https://i.example/2.png"].
Proof. split; vm_compute; reflexivity. Qed.

(* ===================================================================== *)
(** ** C5: when there is a retweet *)
(* ===================================================================== *)

Lemma assemble_text_empty title body :
  str_is_empty (assemble_text title body)
  = negb (truthy_str title) && str_is_empty body.
Proof.
  unfold assemble_text. destruct (truthy_str title); reflexivity.
Qed.

Lemma resolve_avatar_str E u s r s' :
  resolve_avatar E (Some (ImgStr u)) s = (r, s') ->
  r = Ok (if str_is_empty u then None else Some u).
Proof.
  unfold resolve_avatar. simpl.
  destruct (str_is_empty u); simpl; intros H; injection H as <- _; reflexivity.
Qed.

(** C5, as the code has it.  When [parse] returns, the card has a retweet
    exactly when the post has a repost.  The retweet's author is the repost's
    nickname and its content is always there: the repost's text, with the
    title as a heading when there is one.  Some field of the retweet is not
    empty as soon as the repost has a non-empty nickname, a title, a
    non-empty body or a non-empty [str] avatar. *)
Theorem parse_retweet_presence
    (E : Collaborators) (post : Post) (s s' : State)
    (card : PopinPartyCard) (imgs : loc) :
  parse E post s = (Ok (card, imgs), s') ->
  (is_Some (card_retweet card) <-> is_Some (post_repost post))
  /\ forall rt,
       card_retweet card = Some rt ->
       exists rp,
         post_repost post = Some rp
         /\ retweet_author rt = post_nickname rp
         /\ retweet_content rt
            = Some (assemble_text (post_title rp) (post_content rp))
         /\ (truthy_str (post_nickname rp)
             || truthy_str (post_title rp)
             || negb (str_is_empty (post_content rp))
             || match post_avatar rp with
                | Some (ImgStr u) => negb (str_is_empty u)
                | _ => false
                end = true ->
             retweet_all_empty rt = false).
Proof.
  intros Hrun.
  destruct (parse_ok_inv E _ _ _ _ _ Hrun)
    as (nickname & avatar_url & sa & client & sc & image_urls & si & retweet
        & sr & timestamp_str & st & qr & sq & qr_code
        & _ & _ & _ & _ & _ & Hr & _ & _ & _ & ->).
  apply parse_repost_ok_inv in Hr. simpl.
  destruct (post_repost post) as [rp |].
  - destruct Hr as (shown & avatar & sx & sy & Hav & ->). split.
    + split; intros _; eexists; reflexivity.
    + intros rt Hrt. injection Hrt as <-. exists rp.
      repeat split. intros Hsome.
      unfold retweet_all_empty. simpl. rewrite assemble_text_empty.
      destruct (truthy_str (post_nickname rp)); [reflexivity|].
      destruct (truthy_str (post_title rp)); [reflexivity|].
      destruct (str_is_empty (post_content rp)); [|reflexivity].
      simpl in Hsome.
      destruct (post_avatar rp) as [[u | b | p | b] |]; try discriminate Hsome.
      apply resolve_avatar_str in Hav. injection Hav as ->.
      destruct (str_is_empty u) eqn:Hu; [discriminate Hsome|].
      simpl. rewrite Hu. simpl. destruct shown; reflexivity.
  - subst retweet. split.
    + split; intros [x Hx]; discriminate Hx.
    + intros rt Hrt. discriminate Hrt.
Qed.

Lemma parse_retweet_presence_witness :
  exists rt,
    option_map (fun r => card_retweet (fst r))
               (returned (parse Demo.plain Demo.forward Demo.shelf))
    = Some (Some rt)
    /\ retweet_author rt = Some "B"
    /\ retweet_content rt = Some "original"
    /\ retweet_all_empty rt = false.
Proof.
  pose (run := parse Demo.plain Demo.forward Demo.shelf).
  destruct (fst run) as [[card imgs] | e] eqn:Hfst; [|discriminate Hfst].
  destruct (parse_retweet_presence Demo.plain Demo.forward Demo.shelf
              (snd run) card imgs) as [_ Hrt].
  { rewrite <- Hfst. apply surjective_pairing. }
  vm_compute in Hfst. injection Hfst as <- _.
  destruct (Hrt _ eq_refl) as (rp & Hrp & Ha & Hc & Hne).
  injection Hrp as <-.
  eexists. split; [reflexivity|].
  split; [exact Ha|]. split; [exact Hc|]. apply Hne. reflexivity.
Defined.

(** C5 as stated fails: forwarding a post that has no nickname, no title, an
    empty body, no picture and no avatar gives a retweet all of whose fields
    are empty. *)
Lemma retweet_of_empty_repost_is_all_empty :
  option_map (fun r => card_retweet (fst r))
             (returned (parse Demo.plain Demo.forward_nothing Demo.start))
  = Some (Some (mkRetweet None (Some EmptyString) [] None))
  /\ retweet_all_empty (mkRetweet None (Some EmptyString) [] None) = true.
Proof. split; vm_compute; reflexivity. Qed.

(* ===================================================================== *)
(** ** C6: the timestamp *)
(* ===================================================================== *)

(** C6, as the code has it.  When [parse] returns: for a post whose
    timestamp is a number other than 0, the card's timestamp is that instant
    in the local [YYYY-MM-DD HH:MM:SS] form; for a post with no timestamp,
    and for one whose timestamp is 0, it is the current time in that form. *)
Theorem parse_timestamp
    (E : Collaborators) (post : Post) (s s' : State)
    (card : PopinPartyCard) (imgs : loc) :
  parse E post s = (Ok (card, imgs), s') ->
  (forall ts, post_timestamp post = Some ts -> ts <> 0 ->
              card_timestamp card = strftime_local E ts)
  /\ (post_timestamp post = None \/ post_timestamp post = Some 0 ->
      card_timestamp card = strftime_local E (now E)).
Proof.
  intros Hrun.
  destruct (parse_ok_inv E _ _ _ _ _ Hrun)
    as (nickname & avatar_url & sa & client & sc & image_urls & si & retweet
        & sr & timestamp_str & st & qr & sq & qr_code
        & _ & _ & _ & _ & _ & _ & Ht & _ & _ & ->).
  destruct (format_timestamp_run E (post_timestamp post) sr) as (sx & Hf & _).
  rewrite Hf in Ht. injection Ht as <- _. simpl. split.
  - intros ts -> Hts. destruct (Z.eqb_spec ts 0); [contradiction | reflexivity].
  - intros [-> | ->]; reflexivity.
Qed.

Lemma parse_timestamp_witness :
  option_map (fun r => card_timestamp (fst r))
             (returned (parse Demo.plain Demo.hello Demo.start))
  = Some "2023-11-14 22:13:20".
Proof.
  pose (run := parse Demo.plain Demo.hello Demo.start).
  destruct (fst run) as [[card imgs] | e] eqn:Hfst; [|discriminate Hfst].
  destruct (parse_timestamp Demo.plain Demo.hello Demo.start (snd run)
              card imgs) as [_ Hnow].
  { rewrite <- Hfst. apply surjective_pairing. }
  specialize (Hnow (or_introl eq_refl)).
  unfold returned. fold run. rewrite Hfst. simpl. rewrite Hnow. reflexivity.
Defined.

(** C6 as stated fails at the timestamp 0: on a host in the UTC zone whose
    clock reads 1700000000, the card of a post dated 0 shows the current
    time, not 1970-01-01 00:00:00. *)
Lemma epoch_timestamp_shows_current_time :
  post_timestamp Demo.epoch = Some 0
  /\ strftime_local Demo.plain 0 = "1970-01-01 00:00:00"
  /\ option_map (fun r => card_timestamp (fst r))
                (returned (parse Demo.plain Demo.epoch Demo.start))
     = Some "2023-11-14 22:13:20".
Proof. repeat split; vm_compute; reflexivity. Qed.

(* ===================================================================== *)
(** ** C7: the QR code *)
(* ===================================================================== *)

(** C7.  When [parse] returns, the card's [qr_code] is what the embedding of
    images gave for the QR image, and the QR image is what the QR generator
    gave, on a white background, for a text that is never empty: the post's
    URL when the post has one (a non-empty string), and the literal
    [No URL] when it has none. *)
Theorem parse_qr_code
    (E : Collaborators) (post : Post) (s s' : State)
    (card : PopinPartyCard) (imgs : loc) :
  parse E post s = (Ok (card, imgs), s') ->
  exists data qr,
    convert_to_qr E data (255, 255, 255) = Ok qr
    /\ web_embed_image E qr = Ok (card_qr_code card)
    /\ str_is_empty data = false
    /\ (forall u, post_url post = Some u -> str_is_empty u = false -> data = u)
    /\ (post_url post = None \/ post_url post = Some EmptyString ->
        data = "No URL").
Proof.
  intros Hrun.
  destruct (parse_ok_inv E _ _ _ _ _ Hrun)
    as (nickname & avatar_url & sa & client & sc & image_urls & si & retweet
        & sr & timestamp_str & st & qr & sq & qr_code
        & _ & _ & _ & _ & _ & _ & _ & Hq & Hw & ->).
  apply call_ok_inv in Hq as [Hq _]. apply call_ok_inv in Hw as [Hw _].
  exists (qr_data post), qr. simpl.
  split; [exact Hq|]. split; [exact Hw|].
  unfold qr_data, str_or, truthy_str.
  destruct (post_url post) as [[| c u] |]; simpl; repeat split;
    try reflexivity.
  - intros u H. injection H as <-. discriminate.
  - intros u' H _. injection H as <-. reflexivity.
  - intros [H | H]; discriminate H.
  - intros u H. discriminate H.
Qed.

Lemma parse_qr_code_witness :
  exists qr,
    convert_to_qr Demo.plain "No URL" (255, 255, 255) = Ok qr
    /\ option_map (fun r => Ok (card_qr_code (fst r)))
                  (returned (parse Demo.plain Demo.hello Demo.start))
       = Some (web_embed_image Demo.plain qr).
Proof.
  pose (run := parse Demo.plain Demo.hello Demo.start).
  destruct (fst run) as [[card imgs] | e] eqn:Hfst; [|discriminate Hfst].
  destruct (parse_qr_code Demo.plain Demo.hello Demo.start (snd run)
              card imgs) as (data & qr & Hq & Hw & _ & _ & Hnone).
  { rewrite <- Hfst. apply surjective_pairing. }
  rewrite (Hnone (or_introl eq_refl)) in Hq.
  exists qr. split; [exact Hq|].
  unfold returned. fold run. rewrite Hfst.
  change (Some (Ok (card_qr_code card)) = Some (web_embed_image Demo.plain qr)).
  f_equal. symmetry. exact Hw.
Defined.

(* ===================================================================== *)
(** ** What [parse] asks of the outside world *)
(* ===================================================================== *)

Section Footprints.

Context (E : Collaborators).
Implicit Types (Q : event -> Prop) (P : pyexc -> Prop) (s : State).




Lemma image_urls_loop_adds Q imgs acc s :
  (forall img, Q (EvWebEmbedImage img)) ->
  adds_at s Q (image_urls_loop E imgs acc).
Proof.
  intros Hq. revert acc s.
  induction imgs as [| img rest IH]; intros acc s; simpl.
  - apply adds_at_ret.
  - destruct img; try apply IH;
      (apply adds_at_bind; [apply adds_at_call, Hq | intros; apply IH]).
Qed.

Lemma image_urls_loop_keeps imgs acc s :
  keeps_heap_at s (image_urls_loop E imgs acc).
Proof.
  revert acc s. induction imgs as [| img rest IH]; intros acc s; simpl.
  - apply keeps_heap_at_ret.
  - destruct img; try apply IH;
      (apply keeps_heap_at_bind; [apply keeps_heap_at_call | intros; apply IH]).
Qed.

Lemma merge_pics_adds_any Q s images client :
  (forall l pics, Q (EvIsPicsMergable l pics)) ->
  (forall l pics, Q (EvPicMerge l pics)) ->
  adds_at s Q (merge_pics E images client).
Proof.
  intros Hp Hm. eapply adds_at_weaken; [|apply merge_pics_adds].
  intros [] H; try discriminate H; [apply Hp | apply Hm].
Qed.

Lemma silent_alloc Q s xs : adds_at s Q (alloc xs).
Proof.
  apply adds_at_silent. intros r s' H. injection H as _ <-. reflexivity.
Qed.

Lemma silent_read Q s l : adds_at s Q (read l).
Proof.
  apply adds_at_silent. intros r s' H. injection H as _ <-. reflexivity.
Qed.

Lemma silent_extend Q s a b : adds_at s Q (extend a b).
Proof.
  apply adds_at_silent. intros r s' H. injection H as _ <-. reflexivity.
Qed.

Lemma silent_truthy_images Q s o : adds_at s Q (truthy_images o).
Proof.
  apply adds_at_silent. intros r s' H. rewrite truthy_images_run in H.
  injection H as _ <-. reflexivity.
Qed.

Lemma parse_images_adds Q s post client :
  (forall img, Q (EvWebEmbedImage img)) ->
  (forall l pics, Q (EvIsPicsMergable l pics)) ->
  (forall l pics, Q (EvPicMerge l pics)) ->
  adds_at s Q (parse_images E post client).
Proof.
  intros He Hp Hm. unfold parse_images.
  apply adds_at_bind; [apply silent_alloc|]. intros images s1 _.
  apply adds_at_bind; [apply silent_truthy_images|]. intros [|] s2 _.
  - apply adds_at_bind; [apply merge_pics_adds_any; assumption|].
    intros merged s3 _.
    apply adds_at_bind; [apply silent_read|]. intros src s4 _.
    apply adds_at_bind; [apply image_urls_loop_adds, He|].
    intros urls s5 _. apply adds_at_ret.
  - apply adds_at_ret.
Qed.

Lemma parse_repost_adds_any Q s repost images client :
  (forall img, Q (EvWebEmbedImage img)) ->
  (forall l pics, Q (EvIsPicsMergable l pics)) ->
  (forall l pics, Q (EvPicMerge l pics)) ->
  adds_at s Q (parse_repost E repost images client).
Proof.
  intros He Hp Hm. destruct repost as [rp |]; [|apply adds_at_ret].
  unfold parse_repost.
  apply adds_at_bind; [apply silent_truthy_images|]. intros has s1 _.
  apply adds_at_bind.
  - destruct has; [|apply adds_at_ret].
    apply adds_at_bind; [apply merge_pics_adds_any; assumption|].
    intros merged s2 _.
    apply adds_at_bind; [apply silent_extend|]. intros _ s3 _.
    apply adds_at_bind; [apply silent_read|]. intros src s4 _.
    apply adds_at_ret.
  - intros shown s2 _.
    apply adds_at_bind; [apply resolve_avatar_adds, He|].
    intros avatar s3 _. apply adds_at_ret.
Qed.

Lemma format_timestamp_adds_when Q s timestamp :
  (timestamp = None \/ timestamp = Some 0 -> Q EvNow) ->
  adds_at s Q (format_timestamp E timestamp).
Proof.
  intros Hq. unfold format_timestamp. destruct timestamp as [ts |].
  - destruct (Z.eqb_spec ts 0) as [-> | Hne].
    + apply adds_at_bind;
        [apply adds_at_emit, Hq; right; reflexivity | intros; apply adds_at_ret].
    + apply adds_at_ret.
  - apply adds_at_bind;
      [apply adds_at_emit, Hq; left; reflexivity | intros; apply adds_at_ret].
Qed.

Lemma parse_adds_footprint post s :
  adds_at s (parse_footprint post) (parse E post).
Proof.
  unfold parse.
  destruct (post_nickname post) as [[| c nickname] |];
    try apply adds_at_raise.
  apply adds_at_bind; [apply resolve_avatar_adds; intros; exact I|].
  intros avatar_url sa _.
  apply adds_at_bind; [apply adds_at_call; exact I|]. intros client sc _.
  apply adds_at_bind; [apply parse_images_adds; intros; exact I|].
  intros [images image_urls] si _.
  apply adds_at_bind; [apply parse_repost_adds_any; intros; exact I|].
  intros retweet sr _.
  apply adds_at_bind; [apply format_timestamp_adds_when; intros H; exact H|].
  intros timestamp_str st _.
  apply adds_at_bind; [apply adds_at_call; reflexivity|]. intros qr sq _.
  apply adds_at_bind; [apply adds_at_call; exact I|]. intros qr_code sz _.
  apply adds_at_ret.
Qed.

End Footprints.

(** X1.  Whatever way [parse] ends, all it asked of the outside world is:
    embedding of images, the HTTP client, the merge predicate and the merge
    operation, the QR generator, always on [post.url or "No URL"], and the
    clock, only for a post whose timestamp is absent or 0.  It loads no
    template, reads no file and opens no page. *)
Theorem parse_calls_only_its_collaborators
    (E : Collaborators) (post : Post) (s s' : State)
    (r : outcome (PopinPartyCard * loc)) :
  parse E post s = (r, s') ->
  exists evs,
    trace s' = trace s ++ evs
    /\ forall e, In e evs ->
         match e with
         | EvWebEmbedImage _ | EvGetClientForStatic
         | EvIsPicsMergable _ _ | EvPicMerge _ _ => True
         | EvConvertToQr data => data = str_or (post_url post) "No URL"
         | EvNow => post_timestamp post = None \/ post_timestamp post = Some 0
         | _ => False
         end.
Proof.
  intros Hrun.
  destruct (parse_adds_footprint E post s r s' Hrun) as (evs & Ht & Hq).
  exists evs. split; [exact Ht|]. intros e Hin.
  rewrite Forall_forall in Hq. apply list_elem_of_In in Hin.
  exact (Hq e Hin).
Qed.

Lemma parse_calls_only_its_collaborators_witness :
  exists evs,
    trace (snd (parse Demo.plain Demo.forward Demo.shelf))
    = trace Demo.shelf ++ evs
    /\ ~ In (EvGetTemplate template_name) evs.
Proof.
  destruct (parse_calls_only_its_collaborators Demo.plain Demo.forward
              Demo.shelf (snd (parse Demo.plain Demo.forward Demo.shelf))
              (fst (parse Demo.plain Demo.forward Demo.shelf))
              (surjective_pairing _)) as (evs & Ht & Hq).
  exists evs. split; [exact Ht|]. intros Hin. exact (Hq _ Hin).
Defined.

(* ===================================================================== *)
(** ** Which exceptions come out *)
(* ===================================================================== *)

Section Failures.

Context (E : Collaborators).
Implicit Types (s : State).







End Failures.



(* ===================================================================== *)
(** ** The stages of [render] *)
(* ===================================================================== *)

Section Stages.

Context (E : Collaborators) (template_path : string).
Implicit Types (s : State).

Lemma embed_svg_adds (Q : event -> Prop) s path :
  Q (EvPathExists path) -> Q (EvReadFile path) ->
  adds_at s Q (embed_svg_as_data_url E path).
Proof.
  intros He Hr. unfold embed_svg_as_data_url.
  apply adds_at_bind; [apply adds_at_emit, He|]. intros _ s1 _.
  destruct (read_text E path) as [r |]; [|apply adds_at_ret].
  apply adds_at_bind; [apply adds_at_call, Hr | intros; apply adds_at_ret].
Qed.

Lemma render_template_adds s card :
  adds_at s (fun e => page_event e = false)
          (render_template E template_path card).
Proof.
  unfold render_template.
  apply adds_at_bind; [apply adds_at_call; reflexivity|]. intros t s1 _.
  apply adds_at_bind; [apply embed_svg_adds; reflexivity|]. intros logo s2 _.
  apply adds_at_call. reflexivity.
Qed.


(** Every way through the [async with] block: what it leaves in the trace,
    and where an exception that leaves it came from. *)
Lemma with_new_page_inv opts html s r s' :
  with_new_page E opts html s = (r, s') ->
  heap s' = heap s
  /\ (exists page, trace s' = trace s ++ page /\ page_run E page)
  /\ (forall e, r = Raise e -> page_raised E e)
  /\ (forall shot, r = Ok shot ->
        page_screenshot E "jpeg" 90 true = Ok shot /\ page_close E = Ok tt).
Proof.
  unfold with_new_page, try_finally, page_body, call, bind, emit. simpl.
  destruct (get_new_page E opts) as [[] | e0] eqn:Hopen.
  2:{ intros H. injection H as <- <-. simpl. split; [reflexivity|]. split.
      - exists [EvGetNewPage opts]. split; [reflexivity|].
        right. left. exists opts, e0. split; [reflexivity | exact Hopen].
      - split; [|intros shot H; discriminate H].
        intros e H. injection H as <-. left. eexists. exact Hopen. }
  destruct (page_goto E "about:blank") as [[] | e1] eqn:H1;
    [destruct (page_set_content E html) as [[] | e2] eqn:H2;
     [destruct (page_wait_for_timeout E 200) as [[] | e3] eqn:H3;
      [destruct (page_screenshot E "jpeg" 90 true) as [shot | e4] eqn:H4|]|]|];
    destruct (page_close E) as [[] | e5] eqn:H5; simpl;
    intros H; injection H as <- <-; simpl;
    (split; [reflexivity|]);
    (split;
     [eexists; split;
      [repeat rewrite <- app_assoc; reflexivity
      | right; right; eexists; eexists;
        split; [reflexivity | split; [exact Hopen | reflexivity]]]
     |]);
    (split;
     [intros e He; try discriminate He; injection He as <-;
      unfold page_raised; eauto 12
     | intros sh Hs; try discriminate Hs; injection Hs as <-;
       split; reflexivity]).
Qed.

Lemma capture_inv opts html s r s' :
  capture E opts html s = (r, s') ->
  heap s' = heap s
  /\ (exists page, trace s' = trace s ++ page /\ page_run E page)
  /\ (forall e, r = Raise e ->
        (page_raised E e /\ isinstance_Exception e = false)
        \/ (exists c, e = ThemeRenderError
                            (String.append "Render error: " (exc_str c)) c
                      /\ page_raised E c /\ isinstance_Exception c = true))
  /\ (forall shot, r = Ok shot ->
        page_screenshot E "jpeg" 90 true = Ok shot /\ page_close E = Ok tt).
Proof.
  unfold capture, try_except.
  destruct (with_new_page E opts html s) as [[shot | c] s1] eqn:Hpage;
    destruct (with_new_page_inv _ _ _ _ _ Hpage) as (Hh & Ht & Hr & Hs).
  - intros H. injection H as <- <-.
    split; [exact Hh|]. split; [exact Ht|]. split; [|exact Hs].
    intros e He. discriminate He.
  - destruct (isinstance_Exception c) eqn:Hc; intros H; injection H as <- <-;
      (split; [exact Hh|]); (split; [exact Ht|]);
      (split; [|intros shot H; discriminate H]);
      intros e He; injection He as <-.
    + right. exists c. repeat split; [apply Hr; reflexivity | exact Hc].
    + left. split; [apply Hr; reflexivity | exact Hc].
Qed.

Lemma footprint_not_page post (evs : list event) :
  Forall (parse_footprint post) evs ->
  Forall (fun e => page_event e = false) evs.
Proof.
  intros Hall. eapply Forall_impl; [exact Hall|].
  intros [] H; try reflexivity; destruct H.
Qed.

End Stages.

(** The three stages of [render], whatever way it ends. *)
Lemma render_inv E template_path post s r s' :
  render E template_path post s = (r, s') ->
  (exists e, parse E post s = (Raise e, s') /\ r = Raise e)
  \/ (exists card imgs s1,
        parse E post s = (Ok (card, imgs), s1)
        /\ ((exists e, render_template E template_path card s1 = (Raise e, s')
                       /\ r = Raise e)
            \/ (exists html s2 rc,
                  render_template E template_path card s1 = (Ok html, s2)
                  /\ capture E (pages E card) html s2 = (rc, s')
                  /\ r = match rc with
                         | Ok shot => Ok [Image shot]
                         | Raise e => Raise e
                         end))).
Proof.
  unfold render. intros Hrun.
  destruct (bind_inv _ _ _ _ _ Hrun) as [(a & s1 & H1 & H2) | (e & H1 & He)].
  2:{ left. exists e. split; assumption. }
  right. destruct a as [card imgs]. exists card, imgs, s1.
  split; [exact H1|].
  destruct (bind_inv _ _ _ _ _ H2) as [(html & s2 & H3 & H4) | (e & H3 & He)].
  2:{ left. exists e. split; assumption. }
  right. exists html, s2.
  destruct (bind_inv _ _ _ _ _ H4) as [(shot & s3 & H5 & H6) | (e & H5 & He)].
  - injection H6 as <- <-. exists (Ok shot). repeat split; assumption.
  - exists (Raise e). repeat split; assumption.
Qed.

(** X3.  Whatever way [render] ends, what it did with the browser comes
    last and is one of: nothing; one request for a page, which was refused;
    or one page opened, then only navigation, content, wait and screenshot
    calls on it, then its closing as the very last event.  A page that was
    opened is always closed, and no second page is opened. *)
Theorem render_closes_the_page_it_opens
    (E : Collaborators) (template_path : string) (post : Post)
    (s s' : State) (r : outcome (list MessageSegmentFactory)) :
  render E template_path post s = (r, s') ->
  exists before page,
    trace s' = trace s ++ before ++ page
    /\ Forall (fun e => page_event e = false) before
    /\ (page = []
        \/ (exists opts e,
              page = [EvGetNewPage opts] /\ get_new_page E opts = Raise e)
        \/ (exists opts rest,
              page = EvGetNewPage opts :: rest
              /\ get_new_page E opts = Ok tt
              /\ used_then_closed rest = true)).
Proof.
  intros Hrun.
  destruct (render_inv _ _ _ _ _ _ Hrun)
    as [(e & Hp & _) | (card & imgs & s1 & Hp & Hrest)].
  - destruct (parse_adds_footprint E post s _ _ Hp) as (evs & Ht & Hq).
    exists evs, []. rewrite app_nil_r. split; [exact Ht|].
    split; [exact (footprint_not_page _ _ Hq) | left; reflexivity].
  - destruct (parse_adds_footprint E post s _ _ Hp) as (evs & Ht & Hq).
    apply footprint_not_page in Hq.
    destruct Hrest as [(e & Htpl & _) | (html & s2 & rc & Htpl & Hcap & _)];
      destruct (render_template_adds E template_path _ _ _ _ Htpl)
        as (evs2 & Ht2 & Hq2).
    + exists (evs ++ evs2), []. rewrite app_nil_r, Ht2, Ht.
      split; [symmetry; apply app_assoc|].
      split; [apply Forall_app; split; assumption | left; reflexivity].
    + destruct (capture_inv _ _ _ _ _ _ Hcap) as (_ & (page & Ht3 & Hpage) & _).
      exists (evs ++ evs2), page. rewrite Ht3, Ht2, Ht.
      split; [repeat rewrite <- app_assoc; reflexivity|].
      split; [apply Forall_app; split; assumption | exact Hpage].
Qed.

Lemma render_closes_the_page_it_opens_witness :
  exists before page,
    trace (snd (render Demo.broken_screenshot Demo.template_path Demo.hello
                       Demo.start))
    = trace Demo.start ++ before ++ page
    /\ Forall (fun e => page_event e = false) before
    /\ (page = []
        \/ (exists opts e,
              page = [EvGetNewPage opts]
              /\ get_new_page Demo.broken_screenshot opts = Raise e)
        \/ (exists opts rest,
              page = EvGetNewPage opts :: rest
              /\ get_new_page Demo.broken_screenshot opts = Ok tt
              /\ used_then_closed rest = true)).
Proof.
  apply (render_closes_the_page_it_opens Demo.broken_screenshot
           Demo.template_path Demo.hello Demo.start
           (snd (render Demo.broken_screenshot Demo.template_path Demo.hello
                        Demo.start))
           (fst (render Demo.broken_screenshot Demo.template_path Demo.hello
                        Demo.start))).
  apply surjective_pairing.
Defined.



(** X5.  When [render] returns, it returns exactly one segment, the image
    made of the bytes the screenshot call gave; and then the closing of the
    page had succeeded too.  The compositing list of [parse] is not part of
    what is returned. *)
Theorem render_returns_the_screenshot
    (E : Collaborators) (template_path : string) (post : Post)
    (s s' : State) (msgs : list MessageSegmentFactory) :
  render E template_path post s = (Ok msgs, s') ->
  exists shot,
    msgs = [Image shot]
    /\ page_screenshot E "jpeg" 90 true = Ok shot
    /\ page_close E = Ok tt.
Proof.
  intros Hrun.
  destruct (render_inv _ _ _ _ _ _ Hrun)
    as [(e & _ & He) | (card & imgs & s1 & _ & Hrest)]; [discriminate He|].
  destruct Hrest as [(e & _ & He) | (html & s2 & rc & _ & Hcap & He)];
    [discriminate He|].
  destruct rc as [shot | c]; [|discriminate He]. injection He as ->.
  destruct (capture_inv _ _ _ _ _ _ Hcap) as (_ & _ & _ & Hs).
  exists shot. split; [reflexivity | exact (Hs shot eq_refl)].
Qed.

Lemma render_returns_the_screenshot_witness :
  exists shot,
    [Image Demo.jpeg] = [Image shot]
    /\ page_screenshot Demo.plain "jpeg" 90 true = Ok shot
    /\ page_close Demo.plain = Ok tt.
Proof.
  apply (render_returns_the_screenshot Demo.plain Demo.template_path
           Demo.album Demo.shelf
           (snd (render Demo.plain Demo.template_path Demo.album Demo.shelf))).
  reflexivity.
Defined.

(* ===================================================================== *)
(** ** The viewport, the logo and the data URLs *)
(* ===================================================================== *)

(** X6.  For every card the page options have scale factor 2 and width 450,
    and a height between 600 and 1200; the height is 1200 exactly when the
    number of content pictures plus three times the retweet (counted 1 when
    there is one, else 0) is at least 12: from 12 pictures on without a
    retweet, from 9 on with one. *)
Theorem viewport_bounds (E : Collaborators) (card : PopinPartyCard) :
  device_scale_factor (pages E card) = 2
  /\ viewport_width (pages E card) = 450
  /\ 600 <= viewport_height (pages E card) <= 1200
  /\ (viewport_height (pages E card) = 1200
      <-> 12 <= Z.of_nat (List.length (content_images (card_content card)))
                + 3 * (match card_retweet card with
                       | Some _ => 1
                       | None => 0
                       end)).
Proof.
  unfold pages, base_height. simpl.
  destruct (content_images (card_content card)) as [| u urls];
    destruct (card_retweet card); simpl List.length; lia.
Qed.

Lemma substring_all (x : string) : substring 0 (String.length x) x = x.
Proof. induction x as [| c x IH]; simpl; [reflexivity | rewrite IH; reflexivity]. Qed.

Lemma string_drop_append (p x : string) :
  string_drop (String.length p) (String.append p x) = x.
Proof.
  unfold string_drop. induction p as [| c p IH]; simpl.
  - rewrite Nat.sub_0_r. apply substring_all.
  - exact IH.
Qed.

(** X7.  [embed_svg_as_data_url] never changes the heap.  When the path does
    not exist it returns the empty string after the existence check alone.
    When reading the file raises, that exception leaves the function as it
    is.  When the file is read, the result is not empty, and for any decoder
    that undoes the base64 encoder, decoding what follows the first 26
    characters gives back the text of the file. *)
Theorem embed_svg_round_trip
    (E : Collaborators) (svg_path : string) (s s' : State)
    (r : outcome string) :
  embed_svg_as_data_url E svg_path s = (r, s') ->
  heap s' = heap s
  /\ match read_text E svg_path with
     | None =>
         r = Ok EmptyString /\ trace s' = trace s ++ [EvPathExists svg_path]
     | Some (Raise e) => r = Raise e
     | Some (Ok svg_content) =>
         exists url,
           r = Ok url /\ str_is_empty url = false
           /\ forall decode : string -> string,
                (forall x, decode (b64encode E x) = x) ->
                decode (string_drop 26 url) = svg_content
     end.
Proof.
  unfold embed_svg_as_data_url, bind, emit, call, bind, emit. simpl.
  destruct (read_text E svg_path) as [[svg | e] |]; simpl;
    intros H; injection H as <- <-; simpl; split; try reflexivity.
  - eexists. split; [reflexivity|]. split; [reflexivity|].
    intros decode Hcodec.
    etransitivity; [|apply (Hcodec svg)]. f_equal.
    exact (string_drop_append "data:image/svg+xml;base64," (b64encode E svg)).
  - split; reflexivity.
Qed.

Lemma embed_svg_round_trip_witness :
  exists url,
    fst (embed_svg_as_data_url Fixtures.with_logo Fixtures.logo_path Demo.start)
    = Ok url
    /\ string_drop 26 url = "<svg/>".
Proof.
  destruct (embed_svg_round_trip Fixtures.with_logo Fixtures.logo_path
              Demo.start
              (snd (embed_svg_as_data_url Fixtures.with_logo
                      Fixtures.logo_path Demo.start))
              (fst (embed_svg_as_data_url Fixtures.with_logo
                      Fixtures.logo_path Demo.start))
              (surjective_pairing _)) as [_ H].
  simpl in H. destruct H as (url & Hr & _ & Hd).
  exists url. split; [exact Hr|].
  exact (Hd (fun x => x) (fun x => eq_refl)).
Defined.

(** X8.  [embed_image_as_data_url] never changes the heap.  When the path
    does not exist it returns the empty string after the existence check
    alone.  When reading the file raises, that exception leaves the function
    as it is.  When the file is read, the result is not empty, and for any
    decoder that undoes the base64 encoder, decoding what follows the first
    22 characters gives back the bytes of the file, all of them and in the
    same order. *)
Theorem embed_image_round_trip
    (E : Collaborators)
    (read_bytes : string -> option (outcome (list Byte.byte)))
    (image_path : string) (s s' : State) (r : outcome string) :
  embed_image_as_data_url E read_bytes image_path s = (r, s') ->
  heap s' = heap s
  /\ match read_bytes image_path with
     | None =>
         r = Ok EmptyString /\ trace s' = trace s ++ [EvPathExists image_path]
     | Some (Raise e) => r = Raise e
     | Some (Ok data) =>
         exists url,
           r = Ok url /\ str_is_empty url = false
           /\ forall decode : string -> string,
                (forall x, decode (b64encode E x) = x) ->
                list_byte_of_string (decode (string_drop 22 url)) = data
     end.
Proof.
  unfold embed_image_as_data_url, bind, emit, call, bind, emit. simpl.
  destruct (read_bytes image_path) as [[data | e] |]; simpl;
    intros H; injection H as <- <-; simpl; split; try reflexivity.
  - eexists. split; [reflexivity|]. split; [reflexivity|].
    intros decode Hcodec.
    etransitivity; [|apply (list_byte_of_string_of_list_byte data)].
    f_equal. etransitivity; [|apply Hcodec]. f_equal.
    exact (string_drop_append "data:image/png;base64,"
             (b64encode E (string_of_list_byte data))).
  - split; reflexivity.
Qed.

Lemma embed_image_round_trip_witness :
  exists url,
    fst (embed_image_as_data_url Demo.plain Fixtures.disk "/pics/a.png"
           Demo.start) = Ok url
    /\ list_byte_of_string (string_drop 22 url)
       = [Byte.x89; Byte.x50; Byte.x4e].
Proof.
  destruct (embed_image_round_trip Demo.plain Fixtures.disk "/pics/a.png"
              Demo.start
              (snd (embed_image_as_data_url Demo.plain Fixtures.disk
                      "/pics/a.png" Demo.start))
              (fst (embed_image_as_data_url Demo.plain Fixtures.disk
                      "/pics/a.png" Demo.start))
              (surjective_pairing _)) as [_ H].
  simpl in H. destruct H as (url & Hr & _ & Hd).
  exists url. split; [exact Hr|].
  exact (Hd (fun x => x) (fun x => eq_refl)).
Defined.

(** X9.  In [render], once the template is loaded: when the logo file does
    not exist, the markup is rendered with the empty string for the logo, so
    a missing logo does not fail the rendering; when reading the logo raises,
    that exception leaves the stage as it is and the markup is never
    rendered; when the logo is read, the markup is rendered with its data
    URL. *)
Theorem render_template_logo
    (E : Collaborators) (template_path : string) (card : PopinPartyCard)
    (s : State) (t : nat) :
  get_template E template_name = Ok t ->
  match read_text E (String.append template_path "/bang-dream-seeklogo.svg") with
  | None =>
      render_template E template_path card s
      = (render_async E t card EmptyString,
         mkState (heap s)
           (trace s ++
            [EvGetTemplate template_name;
             EvPathExists
               (String.append template_path "/bang-dream-seeklogo.svg");
             EvRenderAsync card EmptyString]))
  | Some (Raise e) =>
      render_template E template_path card s
      = (Raise e,
         mkState (heap s)
           (trace s ++
            [EvGetTemplate template_name;
             EvPathExists
               (String.append template_path "/bang-dream-seeklogo.svg");
             EvReadFile
               (String.append template_path "/bang-dream-seeklogo.svg")]))
  | Some (Ok svg_content) =>
      fst (render_template E template_path card s)
      = render_async E t card
          (String.append "data:image/svg+xml;base64,"
                         (b64encode E svg_content))
  end.
Proof.
  intros Ht.
  unfold render_template, embed_svg_as_data_url, bind, call, emit, bind, emit.
  simpl. rewrite Ht.
  change (String.append template_path (String.append "/" logo_name))
    with (String.append template_path "/bang-dream-seeklogo.svg").
  destruct (read_text E _) as [[svg | e] |]; simpl;
    repeat rewrite <- app_assoc; reflexivity.
Qed.

Lemma render_template_logo_witness :
  fst (render_template Fixtures.with_logo Demo.template_path
         (mkPopinPartyCard (mkUserInfo "A" None None)
            (mkContent "hello" [] None) None EmptyString EmptyString
            EmptyString) Demo.start)
  = Ok "<html></html>".
Proof.
  exact (render_template_logo Fixtures.with_logo Demo.template_path
           (mkPopinPartyCard (mkUserInfo "A" None None)
              (mkContent "hello" [] None) None EmptyString EmptyString
              EmptyString) Demo.start 0%nat eq_refl).
Defined.

(* ===================================================================== *)
(** ** The lists [parse] shares with its caller *)
(* ===================================================================== *)

Section Frames.

Context (E : Collaborators).
Implicit Types (s : State) (X : loc -> Prop).

Lemma heap_le_refl (h : Heap) : heap_le h h.
Proof. intros l xs H. exact H. Qed.

Lemma heap_le_alloc (h : Heap) (xs : list image) : heap_le h (h ++ [xs]).
Proof. intros l ys H. apply lookup_alloc_old. exact H. Qed.

Lemma heap_le_fresh (h h' : Heap) :
  heap_le h h' -> h !! List.length h' = None.
Proof.
  intros Hle. destruct (h !! List.length h') as [xs |] eqn:Hl; [|reflexivity].
  apply Hle in Hl. apply lookup_lt_Some in Hl. lia.
Qed.

Lemma deref_heap_le (h h' : Heap) (l : loc) :
  heap_le h h' -> is_Some (h !! l) -> deref h' l = deref h l.
Proof.
  intros Hle [xs Hl]. rewrite (deref_lookup _ _ _ Hl).
  apply deref_lookup, Hle, Hl.
Qed.

Lemma frames_at_keeps {A} s X (m : M A) : keeps_heap_at s m -> frames_at s X m.
Proof. intros Hk r s' Hrun l xs _ Hl. rewrite (Hk _ _ Hrun). exact Hl. Qed.

Lemma frames_at_weaken {A} s X X' (m : M A) :
  (forall l, X l -> X' l) -> frames_at s X m -> frames_at s X' m.
Proof.
  intros Himp Hm r s' Hrun l xs Hx Hl.
  apply (Hm _ _ Hrun l xs); [intros H; apply Hx, Himp, H | exact Hl].
Qed.

Lemma frames_at_bind {A B} s X (m : M A) (k : A -> M B) :
  frames_at s X m ->
  (forall a s1, m s = (Ok a, s1) -> frames_at s1 X (k a)) ->
  frames_at s X (bind m k).
Proof.
  intros Hm Hk r s' Hrun l xs Hx Hl.
  destruct (bind_inv _ _ _ _ _ Hrun) as [(a & s1 & H1 & H2) | (e & H1 & _)].
  - apply (Hk _ _ H1 _ _ H2 l xs Hx). exact (Hm _ _ H1 l xs Hx Hl).
  - exact (Hm _ _ H1 l xs Hx Hl).
Qed.

Lemma frames_at_ret {A} s X (a : A) : frames_at s X (ret a).
Proof. apply frames_at_keeps, keeps_heap_at_ret. Qed.

Lemma frames_at_alloc s X xs : frames_at s X (alloc xs).
Proof.
  intros r s' H l ys _ Hl. injection H as _ <-. simpl.
  apply lookup_alloc_old. exact Hl.
Qed.

Lemma frames_at_read s X l : frames_at s X (read l).
Proof. intros r s' H l0 ys _ Hl. injection H as _ <-. exact Hl. Qed.

Lemma frames_at_truthy_images s X o : frames_at s X (truthy_images o).
Proof.
  intros r s' H l0 ys _ Hl. rewrite truthy_images_run in H.
  injection H as _ <-. exact Hl.
Qed.

Lemma frames_at_extend s a b : frames_at s (fun l => l = a) (extend a b).
Proof.
  intros r s' H l ys Hne Hl. injection H as _ <-. cbn [heap].
  rewrite <- Hl. apply list_lookup_insert_ne.
  intros Heq. apply Hne. symmetry. exact Heq.
Qed.

(** What [merge_pics] does to the heap: a new list for its result, and what
    the merge collaborator did. *)
Lemma merge_pics_heap s images client r s' :
  pic_merge_frames E ->
  merge_pics E images client s = (r, s') ->
  heap_le (heap s) (heap s')
  /\ forall l', r = Ok l' ->
       heap s !! l' = None /\ is_Some (heap s' !! l').
Proof.
  intros Hframes Hrun.
  unfold merge_pics, bind, read, call, emit, bind in Hrun. simpl in Hrun.
  destruct (is_pics_mergable E _) as [[|] | e].
  - unfold call_pic_merge, bind, read, emit in Hrun. simpl in Hrun.
    destruct (pic_merge E (heap s) images client) as [[l1 | e] h'] eqn:Hp;
      simpl in Hrun; injection Hrun as <- <-; simpl;
      pose proof (Hframes _ _ _ _ _ Hp) as Hle.
    + split.
      * intros l xs Hl. apply lookup_alloc_old, Hle, Hl.
      * intros l' H. injection H as <-. split.
        -- apply heap_le_fresh, Hle.
        -- eexists. apply lookup_alloc_new.
    + split; [exact Hle | intros l' H; discriminate H].
  - simpl in Hrun. injection Hrun as <- <-. simpl. split.
    + apply heap_le_alloc.
    + intros l' H. injection H as <-. split.
      * apply heap_le_fresh, heap_le_refl.
      * eexists. apply lookup_alloc_new.
  - injection Hrun as <- <-. simpl.
    split; [apply heap_le_refl | intros l' H; discriminate H].
Qed.

Lemma merge_pics_frames s X images client :
  pic_merge_frames E -> frames_at s X (merge_pics E images client).
Proof.
  intros Hframes r s' Hrun l xs _ Hl.
  destruct (merge_pics_heap _ _ _ _ _ Hframes Hrun) as [Hle _].
  apply Hle, Hl.
Qed.

Lemma parse_repost_frames s repost images client :
  pic_merge_frames E ->
  frames_at s (fun l => l = images) (parse_repost E repost images client).
Proof.
  intros Hframes. destruct repost as [rp |]; [|apply frames_at_ret].
  unfold parse_repost.
  apply frames_at_bind; [apply frames_at_truthy_images|]. intros has s1 _.
  apply frames_at_bind.
  - destruct has; [|apply frames_at_ret].
    apply frames_at_bind; [apply merge_pics_frames, Hframes|].
    intros merged s2 _.
    apply frames_at_bind; [apply frames_at_extend|]. intros _ s3 _.
    apply frames_at_bind; [apply frames_at_read|]. intros src s4 _.
    apply frames_at_ret.
  - intros shown s2 _.
    apply frames_at_bind; [apply frames_at_keeps, resolve_avatar_keeps|].
    intros avatar s3 _. apply frames_at_ret.
Qed.

(** What lines 117-128 do to the heap: the compositing list they give back
    is a new list. *)
Lemma parse_images_heap s post client r s' :
  pic_merge_frames E ->
  parse_images E post client s = (r, s') ->
  heap_le (heap s) (heap s')
  /\ forall imgs urls, r = Ok (imgs, urls) ->
       heap s !! imgs = None /\ is_Some (heap s' !! imgs).
Proof.
  intros Hframes. unfold parse_images, bind at 1, alloc.
  unfold bind at 1. rewrite truthy_images_run.
  cbn [heap trace].
  destruct (match post_images post with
            | Some l => _
            | None => false
            end).
  - intros Hrun.
    destruct (bind_inv _ _ _ _ _ Hrun) as [(m & s1 & H1 & H2) | (e & H1 & ->)];
      destruct (merge_pics_heap _ _ _ _ _ Hframes H1) as [Hle Hnew];
      cbn [heap] in Hle, Hnew.
    2:{ split; [|intros imgs urls H; discriminate H].
        intros l xs Hl. apply Hle, lookup_alloc_old, Hl. }
    unfold bind at 1, read in H2.
    destruct (bind_inv _ _ _ _ _ H2) as [(u & s2 & H3 & H4) | (e & H3 & ->)];
      pose proof (image_urls_loop_keeps E _ _ _ _ _ H3) as Hk.
    + injection H4 as <- <-. rewrite Hk. split.
      * intros l xs Hl. apply Hle, lookup_alloc_old, Hl.
      * intros imgs urls H. injection H as <- _.
        destruct (Hnew m eq_refl) as [Hfresh Hlive]. split; [|exact Hlive].
        destruct (heap s !! m) as [xs |] eqn:Hm; [|reflexivity].
        pose proof (eq_trans (eq_sym (lookup_alloc_old _ _ _ [] Hm)) Hfresh)
          as Hbad.
        discriminate Hbad.
    + rewrite Hk. split; [|intros imgs urls H; discriminate H].
      intros l xs Hl. apply Hle, lookup_alloc_old, Hl.
  - intros H. injection H as <- <-. cbn [heap]. split.
    + apply heap_le_alloc.
    + intros imgs urls H. injection H as <- _. split.
      * apply heap_le_fresh, heap_le_refl.
      * eexists. apply lookup_alloc_new.
Qed.

End Frames.

Section Sharing.

Context (E : Collaborators).
Hypothesis Hframes : pic_merge_frames E.
Implicit Types (s : State).

Lemma parse_frames post s :
  frames_at s (fun l => heap s !! l = None) (parse E post).
Proof.
  unfold parse.
  destruct (post_nickname post) as [[| c nickname] |];
    try (apply frames_at_keeps; intros r s' H; injection H as _ <-; reflexivity).
  apply frames_at_bind; [apply frames_at_keeps, resolve_avatar_keeps|].
  intros avatar_url sa Ha.
  apply frames_at_bind; [apply frames_at_keeps, keeps_heap_at_call|].
  intros client sc Hc.
  assert (Hheap : heap sc = heap s).
  { rewrite (keeps_heap_at_call _ _ _ _ _ Hc).
    exact (resolve_avatar_keeps _ _ _ _ _ Ha). }
  apply frames_at_bind.
  { intros r s' Hrun l xs _ Hl.
    destruct (parse_images_heap _ _ _ _ _ _ Hframes Hrun) as [Hle _].
    apply Hle, Hl. }
  intros [images image_urls] si Hi.
  destruct (parse_images_heap _ _ _ _ _ _ Hframes Hi) as [_ Hnew].
  destruct (Hnew _ _ eq_refl) as [Hfresh _]. rewrite Hheap in Hfresh.
  apply frames_at_bind.
  { eapply frames_at_weaken; [|apply parse_repost_frames, Hframes].
    intros l ->. exact Hfresh. }
  intros retweet sr _.
  apply frames_at_bind; [apply frames_at_keeps, format_timestamp_keeps|].
  intros timestamp_str st _.
  apply frames_at_bind; [apply frames_at_keeps, keeps_heap_at_call|].
  intros qr sq _.
  apply frames_at_bind; [apply frames_at_keeps, keeps_heap_at_call|].
  intros qr_code sz _. apply frames_at_ret.
Qed.

Lemma parse_result_fresh post s card imgs s' :
  parse E post s = (Ok (card, imgs), s') -> heap s !! imgs = None.
Proof.
  intros Hrun.
  destruct (parse_ok_inv E _ _ _ _ _ Hrun)
    as (nickname & avatar_url & sa & client & sc & image_urls & si & retweet
        & sr & timestamp_str & st & qr & sq & qr_code
        & _ & _ & Ha & Hc & Hi & _).
  destruct (parse_images_heap _ _ _ _ _ _ Hframes Hi) as [_ Hnew].
  destruct (Hnew _ _ eq_refl) as [Hfresh _].
  rewrite (keeps_heap_at_call _ _ _ _ _ Hc) in Hfresh.
  rewrite (resolve_avatar_keeps _ _ _ _ _ Ha) in Hfresh. exact Hfresh.
Qed.

End Sharing.

Lemma demo_merge_frames mergable html shot :
  pic_merge_frames (Demo.collaborators mergable html shot).
Proof.
  intros h l client r h' Hrun. simpl in Hrun.
  unfold Demo.merge_first in Hrun. injection Hrun as _ <-.
  apply heap_le_alloc.
Qed.

(** X10.  Let the merge collaborator change no list that exists when it is
    called.  Then, whatever way [parse] ends, every list that was in the
    heap before is there afterwards with the same contents: the lists of the
    post and of its repost are never changed, although [parse] extends its
    compositing list in place.  The compositing list it returns is a new
    list, one that was not in the heap before. *)
Theorem parse_changes_no_list
    (E : Collaborators) (post : Post) (s s' : State)
    (r : outcome (PopinPartyCard * loc)) :
  pic_merge_frames E ->
  parse E post s = (r, s') ->
  (forall l xs, heap s !! l = Some xs -> heap s' !! l = Some xs)
  /\ (forall card imgs, r = Ok (card, imgs) -> heap s !! imgs = None).
Proof.
  intros Hframes Hrun. split.
  - intros l xs Hl.
    apply (parse_frames E Hframes post s r s' Hrun l xs); [|exact Hl].
    intros Hnone.
    pose proof (eq_trans (eq_sym Hl) Hnone) as Hbad. discriminate Hbad.
  - intros card imgs ->. exact (parse_result_fresh E Hframes _ _ _ _ _ Hrun).
Qed.

Lemma parse_changes_no_list_witness :
  let E := Demo.collaborators true (Ok "<html></html>") (Ok Demo.jpeg) in
  heap (snd (parse E Fixtures.both Fixtures.shelves)) !! 0%nat
  = Some Demo.gallery
  /\ heap (snd (parse E Fixtures.both Fixtures.shelves)) !! 1%nat
     = Some [ImgStr "https://i.example/3.png"; ImgPath "/pics/a.png"]
  /\ returned (parse E Fixtures.both Fixtures.shelves) <> None.
Proof.
  intros E.
  destruct (parse_changes_no_list E Fixtures.both Fixtures.shelves
              (snd (parse E Fixtures.both Fixtures.shelves))
              (fst (parse E Fixtures.both Fixtures.shelves))
              (demo_merge_frames _ _ _) (surjective_pairing _)) as [Hkeep _].
  split; [apply Hkeep; reflexivity|]. split; [apply Hkeep; reflexivity|].
  vm_compute. discriminate.
Defined.

(* ===================================================================== *)
(** ** The display lists *)
(* ===================================================================== *)

Section Display.

Context (E : Collaborators).
Hypothesis Hframes : pic_merge_frames E.
Implicit Types (s : State).

Lemma image_urls_loop_ok imgs acc s urls s' :
  image_urls_loop E imgs acc s = (Ok urls, s') ->
  exists refs, urls = acc ++ refs /\ Forall2 (display_of E) imgs refs.
Proof.
  revert acc s. induction imgs as [| img rest IH]; intros acc s; simpl.
  - intros H. injection H as <- _. exists []. split; [|constructor].
    symmetry. apply app_nil_r.
  - destruct img as [u | b | p | b];
      [intros H; destruct (IH _ _ H) as (refs & -> & Hall);
       exists (u :: refs); split;
       [rewrite <- app_assoc; reflexivity | constructor; [reflexivity | exact Hall]]
      | | |];
      (intros H; step H; apply call_ok_inv in Hrun as [Hemb _];
       destruct (IH _ _ H) as (refs & -> & Hall);
       exists (a :: refs); split;
       [rewrite <- app_assoc; reflexivity | constructor; [exact Hemb | exact Hall]]).
Qed.

Lemma source_images_le (h h' : Heap) (o : option loc) :
  heap_le h h' -> images_live h o -> source_images h' o = source_images h o.
Proof.
  destruct o as [l |]; simpl; [|reflexivity].
  intros Hle Hlive. apply deref_heap_le; assumption.
Qed.

Lemma parse_images_display post client s imgs urls s' :
  images_live (heap s) (post_images post) ->
  parse_images E post client s = (Ok (imgs, urls), s') ->
  Forall2 (display_of E) (source_images (heap s) (post_images post)) urls.
Proof.
  intros Hlive Hrun. unfold parse_images in Hrun.
  step Hrun. injection Hrun0 as <- <-.
  step Hrun. rewrite truthy_images_run in Hrun0. injection Hrun0 as <- <-.
  cbn [heap] in Hrun.
  destruct (post_images post) as [l |]; simpl in *.
  2:{ injection Hrun as _ <- _. constructor. }
  assert (Hd : deref (heap s ++ [[]]) l = deref (heap s) l)
    by (apply deref_heap_le; [apply heap_le_alloc | exact Hlive]).
  rewrite Hd in Hrun.
  destruct (deref (heap s) l) as [| x xs] eqn:Hxs; simpl in Hrun.
  { injection Hrun as _ <- _. constructor. }
  step Hrun. step Hrun. injection Hrun1 as <- <-. step Hrun.
  injection Hrun as _ <- _.
  destruct (merge_pics_heap _ _ _ _ _ _ Hframes Hrun0) as [Hle _].
  cbn [heap] in Hle.
  assert (Hd2 : deref (heap s0) l = x :: xs).
  { rewrite <- Hxs. apply deref_heap_le; [|exact Hlive].
    intros l0 ys Hl0. apply Hle, lookup_alloc_old, Hl0. }
  rewrite Hd2 in Hrun1.
  destruct (image_urls_loop_ok _ _ _ _ _ Hrun1) as (refs & -> & Hall).
  exact Hall.
Qed.

Lemma parse_repost_images rp images client s retweet s' :
  images_live (heap s) (post_images rp) ->
  (forall l, post_images rp = Some l -> l <> images) ->
  parse_repost E (Some rp) images client s = (Ok retweet, s') ->
  exists rt,
    retweet = Some rt
    /\ retweet_images rt = omap url_of (source_images (heap s) (post_images rp)).
Proof.
  intros Hlive Hne Hrun. unfold parse_repost in Hrun.
  step Hrun. rewrite truthy_images_run in Hrun0. injection Hrun0 as <- <-.
  step Hrun. step Hrun. injection Hrun as <- _.
  eexists. split; [reflexivity|]. cbn [retweet_images].
  destruct (post_images rp) as [l |]; simpl in *.
  2:{ injection Hrun0 as <- _. reflexivity. }
  destruct (deref (heap s) l) as [| x xs] eqn:Hxs; simpl in Hrun0.
  { injection Hrun0 as <- _. reflexivity. }
  step Hrun0. step Hrun0. injection Hrun2 as _ <-.
  step Hrun0. injection Hrun2 as <- <-. injection Hrun0 as <- _.
  destruct (merge_pics_heap _ _ _ _ _ _ Hframes Hrun) as [Hle _].
  cbn [heap].
  assert (Hd : deref (<[images:=deref (heap s2) images ++ deref (heap s2) a1]>
                        (heap s2)) l = x :: xs).
  { destruct Hlive as [ys Hl]. rewrite (deref_lookup _ _ _ Hl) in Hxs.
    subst ys. apply deref_lookup.
    etransitivity; [apply list_lookup_insert_ne|].
    - intros Heq. exact (Hne l eq_refl (eq_sym Heq)).
    - apply Hle, Hl. }
  rewrite Hd. rewrite retweet_images_loop_urls. reflexivity.
Qed.

End Display.

(** X11.  Let the merge collaborator change no existing list and let the
    post's list of images be in the heap.  When [parse] returns, the card's
    [content.images] has one display reference for each picture of the post,
    in the same order: for a [str] picture the string itself, for any other
    picture what [web_embed_image] gave for it. *)
Theorem parse_display_list
    (E : Collaborators) (post : Post) (s s' : State)
    (card : PopinPartyCard) (imgs : loc) :
  pic_merge_frames E ->
  images_live (heap s) (post_images post) ->
  parse E post s = (Ok (card, imgs), s') ->
  Forall2 (fun img ref =>
             match img with
             | ImgStr u => ref = u
             | _ => web_embed_image E img = Ok ref
             end)
          (source_images (heap s) (post_images post))
          (content_images (card_content card)).
Proof.
  intros Hframes Hlive Hrun.
  destruct (parse_ok_inv E _ _ _ _ _ Hrun)
    as (nickname & avatar_url & sa & client & sc & image_urls & si & retweet
        & sr & timestamp_str & st & qr & sq & qr_code
        & _ & _ & Ha & Hc & Hi & _ & _ & _ & _ & ->).
  assert (Hheap : heap sc = heap s).
  { rewrite (keeps_heap_at_call _ _ _ _ _ Hc).
    exact (resolve_avatar_keeps _ _ _ _ _ Ha). }
  rewrite <- Hheap in Hlive |- *.
  exact (parse_images_display E Hframes _ _ _ _ _ _ Hlive Hi).
Qed.

Lemma parse_display_list_witness :
  Forall2 (fun img ref =>
             match img with
             | ImgStr u => ref = u
             | _ => web_embed_image Demo.plain img = Ok ref
             end)
          Demo.gallery
          ["https://i.example/1.png";
           String.append "data:image/png;base64,"
                         (string_of_list_byte [Byte.x89; Byte.x50]);
           "https://i.example/2.png"].
Proof.
  exact (parse_display_list Demo.plain Demo.album Demo.shelf
           (snd (parse Demo.plain Demo.album Demo.shelf)) _ _
           (demo_merge_frames _ _ _) (ex_intro _ Demo.gallery eq_refl)
           eq_refl).
Defined.

(** X12.  Let the merge collaborator change no existing list and let the
    lists of the post and of its repost be in the heap.  When [parse]
    returns for a post with a repost, the retweet's [images] are the [str]
    pictures of the repost, in their order; pictures of any other kind are
    not in it. *)
Theorem parse_retweet_images
    (E : Collaborators) (post rp : Post) (s s' : State)
    (card : PopinPartyCard) (imgs : loc) :
  pic_merge_frames E ->
  post_live (heap s) post ->
  post_repost post = Some rp ->
  parse E post s = (Ok (card, imgs), s') ->
  exists rt,
    card_retweet card = Some rt
    /\ retweet_images rt
       = omap (fun img => match img with ImgStr u => Some u | _ => None end)
              (source_images (heap s) (post_images rp)).
Proof.
  intros Hframes [Hmain Hrepost] Hrp Hrun. rewrite Hrp in Hrepost.
  destruct (parse_ok_inv E _ _ _ _ _ Hrun)
    as (nickname & avatar_url & sa & client & sc & image_urls & si & retweet
        & sr & timestamp_str & st & qr & sq & qr_code
        & _ & _ & Ha & Hc & Hi & Hr & _ & _ & _ & ->).
  assert (Hheap : heap sc = heap s).
  { rewrite (keeps_heap_at_call _ _ _ _ _ Hc).
    exact (resolve_avatar_keeps _ _ _ _ _ Ha). }
  destruct (parse_images_heap _ _ _ _ _ _ Hframes Hi) as [Hle Hnew].
  destruct (Hnew _ _ eq_refl) as [Hfresh _].
  rewrite Hheap in Hle, Hfresh. rewrite Hrp in Hr.
  assert (Hlive : images_live (heap si) (post_images rp)).
  { destruct (post_images rp) as [l |]; [|exact I].
    destruct Hrepost as [xs Hl]. exists xs. apply Hle, Hl. }
  assert (Hne : forall l, post_images rp = Some l -> l <> imgs).
  { intros l Hl Heq. subst imgs. rewrite Hl in Hrepost.
    destruct Hrepost as [xs Hxs].
    pose proof (eq_trans (eq_sym Hxs) Hfresh) as Hbad. discriminate Hbad. }
  destruct (parse_repost_images E Hframes _ _ _ _ _ _ Hlive Hne Hr)
    as (rt & -> & Himgs).
  exists rt. split; [reflexivity|]. rewrite Himgs.
  rewrite (source_images_le _ _ _ Hle Hrepost). reflexivity.
Qed.

Lemma parse_retweet_images_witness :
  exists rt,
    option_map (fun r => card_retweet (fst r))
               (returned (parse Demo.plain Demo.forward Demo.shelf))
    = Some (Some rt)
    /\ retweet_images rt
       = ["https://i.example/1.png"; "https://i.example/2.png"].
Proof.
  pose (run := parse Demo.plain Demo.forward Demo.shelf).
  destruct (fst run) as [[card imgs] | e] eqn:Hfst; [|discriminate Hfst].
  destruct (parse_retweet_images Demo.plain Demo.forward
              (mkPost (Some "B") None None None "original" (Some 0%nat) None
                      None None Demo.bilibili)
              Demo.shelf (snd run) card imgs (demo_merge_frames _ _ _))
    as (rt & Hrt & Himgs).
  - split; [exact I | exists Demo.gallery; reflexivity].
  - reflexivity.
  - rewrite <- Hfst. apply surjective_pairing.
  - exists rt. split; [|exact Himgs].
    unfold returned. fold run. rewrite Hfst. simpl. rewrite Hrt. reflexivity.
Defined.

(* ===================================================================== *)
(** ** The compositing list *)
(* ===================================================================== *)

Section Compositing.

Context (E : Collaborators).
Hypothesis Hnever : forall pics, is_pics_mergable E pics = Ok false.
Implicit Types (s : State).

Lemma deref_app_last (h : Heap) (xs : list image) :
  deref (h ++ [xs]) (List.length h) = xs.
Proof. apply deref_lookup, lookup_alloc_new. Qed.

Lemma deref_app_old (h : Heap) (xs : list image) (l : loc) :
  is_Some (h !! l) -> deref (h ++ [xs]) l = deref h l.
Proof. apply deref_heap_le, heap_le_alloc. Qed.

Lemma merge_pics_copy s images client :
  merge_pics E images client s
  = (Ok (List.length (heap s)),
     mkState (heap s ++ [deref (heap s) images])
             (trace s ++ [EvIsPicsMergable images (deref (heap s) images)])).
Proof.
  unfold merge_pics, bind, read, call, emit, bind. simpl.
  rewrite Hnever. reflexivity.
Qed.

Lemma parse_images_contents post client s imgs urls s' :
  images_live (heap s) (post_images post) ->
  parse_images E post client s = (Ok (imgs, urls), s') ->
  exists h1,
    heap s' = h1 ++ [source_images (heap s) (post_images post)]
    /\ imgs = List.length h1
    /\ heap_le (heap s) h1.
Proof.
  intros Hlive Hrun. unfold parse_images in Hrun.
  step Hrun. injection Hrun0 as <- <-.
  step Hrun. rewrite truthy_images_run in Hrun0. injection Hrun0 as <- <-.
  cbn [heap] in Hrun.
  destruct (post_images post) as [l |]; simpl in *.
  2:{ injection Hrun as <- _ <-. exists (heap s).
      repeat split. apply heap_le_refl. }
  rewrite (deref_app_old _ [] _ Hlive) in Hrun.
  destruct (deref (heap s) l) as [| x xs] eqn:Hxs; simpl in Hrun.
  { injection Hrun as <- _ <-. exists (heap s).
    repeat split. apply heap_le_refl. }
  step Hrun. rewrite merge_pics_copy in Hrun0. injection Hrun0 as <- <-.
  step Hrun. injection Hrun0 as <- <-.
  step Hrun. injection Hrun as <- _ <-.
  rewrite (image_urls_loop_keeps E _ _ _ _ _ Hrun0). cbn [heap].
  exists (heap s ++ [[]]). rewrite (deref_app_old _ [] _ Hlive), Hxs.
  repeat split. apply heap_le_alloc.
Qed.

Lemma parse_repost_contents repost images client s rt s' h1 main :
  heap s = h1 ++ [main] ->
  images = List.length h1 ->
  match repost with
  | Some rp => images_live h1 (post_images rp)
  | None => True
  end ->
  parse_repost E repost images client s = (Ok rt, s') ->
  deref (heap s') images
  = main ++ match repost with
            | Some rp => source_images h1 (post_images rp)
            | None => []
            end.
Proof.
  intros Hheap -> Hlive Hrun. destruct repost as [rp |].
  2:{ injection Hrun as _ <-. rewrite Hheap, app_nil_r. apply deref_app_last. }
  unfold parse_repost in Hrun.
  step Hrun. rewrite truthy_images_run in Hrun0. injection Hrun0 as <- <-.
  step Hrun. step Hrun. injection Hrun as _ <-.
  rewrite (resolve_avatar_keeps _ _ _ _ _ Hrun1).
  destruct (post_images rp) as [l |]; simpl in *.
  2:{ injection Hrun0 as _ <-. rewrite Hheap, app_nil_r. apply deref_app_last. }
  assert (Hd : deref (heap s) l = deref h1 l)
    by (rewrite Hheap; apply deref_app_old, Hlive).
  rewrite Hd in Hrun0.
  destruct (deref h1 l) as [| x xs] eqn:Hxs; simpl in Hrun0.
  { injection Hrun0 as _ <-. rewrite Hheap, app_nil_r. apply deref_app_last. }
  step Hrun0. rewrite merge_pics_copy in Hrun. injection Hrun as <- <-.
  step Hrun0. injection Hrun as _ <-.
  step Hrun0. injection Hrun as _ <-. injection Hrun0 as _ <-.
  cbn [heap]. rewrite Hd, Hheap.
  rewrite deref_app_last.
  assert (Hmain : deref ((h1 ++ [main]) ++ [x :: xs]) (List.length h1) = main).
  { rewrite deref_app_old; [apply deref_app_last|].
    eexists. apply lookup_alloc_new. }
  rewrite Hmain. apply deref_lookup.
  apply list_lookup_insert_eq.
  repeat rewrite length_app. simpl. lia.
Qed.

End Compositing.

(** X13.  Let the merge predicate answer false for every list, and let the
    lists of the post and of its repost be in the heap.  When [parse]
    returns, the compositing list it returns holds the pictures of the post
    followed by the pictures of the repost, each group whole and in its own
    order; a missing or empty list gives nothing. *)
Theorem parse_compositing_list
    (E : Collaborators) (post : Post) (s s' : State)
    (card : PopinPartyCard) (imgs : loc) :
  (forall pics, is_pics_mergable E pics = Ok false) ->
  post_live (heap s) post ->
  parse E post s = (Ok (card, imgs), s') ->
  deref (heap s') imgs
  = source_images (heap s) (post_images post)
    ++ match post_repost post with
       | Some rp => source_images (heap s) (post_images rp)
       | None => []
       end.
Proof.
  intros Hnever [Hmain Hrepost] Hrun.
  destruct (parse_ok_inv E _ _ _ _ _ Hrun)
    as (nickname & avatar_url & sa & client & sc & image_urls & si & retweet
        & sr & timestamp_str & st & qr & sq & qr_code
        & _ & _ & Ha & Hc & Hi & Hr & Ht & Hq & Hw & _).
  assert (Hheap : heap sc = heap s).
  { rewrite (keeps_heap_at_call _ _ _ _ _ Hc).
    exact (resolve_avatar_keeps _ _ _ _ _ Ha). }
  rewrite <- Hheap in Hmain, Hrepost |- *.
  destruct (parse_images_contents E Hnever _ _ _ _ _ _ Hmain Hi)
    as (h1 & Hsi & Himgs & Hle).
  rewrite (keeps_heap_at_call _ _ _ _ _ Hw).
  rewrite (keeps_heap_at_call _ _ _ _ _ Hq).
  rewrite (format_timestamp_keeps _ _ _ _ _ Ht).
  assert (Hlive1 : match post_repost post with
                   | Some rp => images_live h1 (post_images rp)
                   | None => True
                   end).
  { destruct (post_repost post) as [rp |]; [|exact I].
    destruct (post_images rp) as [l |]; [|exact I].
    destruct Hrepost as [xs Hl]. exists xs. apply Hle, Hl. }
  rewrite (parse_repost_contents E Hnever _ _ _ _ _ _ _ _ Hsi Himgs Hlive1 Hr).
  f_equal. destruct (post_repost post) as [rp |]; [|reflexivity].
  apply source_images_le; assumption.
Qed.

Lemma parse_compositing_list_witness :
  option_map (fun r => deref (heap (snd (parse Demo.plain Fixtures.both
                                               Fixtures.shelves))) (snd r))
             (returned (parse Demo.plain Fixtures.both Fixtures.shelves))
  = Some (Demo.gallery
          ++ [ImgStr "https://i.example/3.png"; ImgPath "/pics/a.png"]).
Proof.
  pose (run := parse Demo.plain Fixtures.both Fixtures.shelves).
  destruct (fst run) as [[card imgs] | e] eqn:Hfst; [|discriminate Hfst].
  unfold returned. fold run. rewrite Hfst. cbn [option_map snd]. f_equal.
  apply (parse_compositing_list Demo.plain Fixtures.both Fixtures.shelves
           (snd run) card imgs).
  - intros pics. reflexivity.
  - split; eexists; reflexivity.
  - rewrite <- Hfst. apply surjective_pairing.
Defined.

(* ===================================================================== *)
(** ** The user block and the head picture *)
(* ===================================================================== *)

Lemma resolve_avatar_ok E avatar s av s' :
  resolve_avatar E avatar s = (Ok av, s') ->
  match avatar with
  | Some (ImgStr u) => av = if str_is_empty u then None else Some u
  | Some img =>
      if truthy_image (Some img)
      then exists ref, web_embed_image E img = Ok ref /\ av = Some ref
      else av = None
  | None => av = None
  end.
Proof.
  unfold resolve_avatar.
  destruct avatar as [[u | [| b0 b] | p | b] |]; simpl;
    try (intros H; injection H as <- _; reflexivity);
    try (intros H; step H; apply call_ok_inv in Hrun as [Hemb _];
         injection H as <- _; eexists; split; [exact Hemb | reflexivity]).
  destruct (str_is_empty u); simpl; intros H; injection H as <- _; reflexivity.
Qed.

Lemma str_or_not_empty o d :
  str_is_empty d = false -> str_is_empty (str_or o d) = false.
Proof.
  intros Hd. unfold str_or, truthy_str.
  destruct o as [[| c x] |]; simpl; try exact Hd. reflexivity.
Qed.

(** X14.  When [parse] returns, the user block of the card is complete:
    the name is the post's nickname and is not empty; the description is
    the post's description, or the fixed default when that is absent or
    empty; the avatar is never absent and never empty: a non-empty [str]
    avatar as it is, for any other true avatar what [web_embed_image] gave
    (or the placeholder when that gave the empty string), and the
    placeholder when the post has no avatar or a false one. *)
Theorem parse_user_block
    (E : Collaborators) (post : Post) (s s' : State)
    (card : PopinPartyCard) (imgs : loc) :
  parse E post s = (Ok (card, imgs), s') ->
  post_nickname post = Some (user_name (card_user card))
  /\ str_is_empty (user_name (card_user card)) = false
  /\ user_desc (card_user card)
     = Some (match post_description post with
             | Some d => if str_is_empty d then "分享美好生活～" else d
             | None => "分享美好生活～"
             end)
  /\ exists avatar,
       user_avatar (card_user card) = Some avatar
       /\ str_is_empty avatar = false
       /\ match post_avatar post with
          | Some (ImgStr u) =>
              avatar = if str_is_empty u then default_avatar else u
          | Some img =>
              if truthy_image (Some img)
              then exists ref,
                     web_embed_image E img = Ok ref
                     /\ avatar = if str_is_empty ref then default_avatar
                                 else ref
              else avatar = default_avatar
          | None => avatar = default_avatar
          end.
Proof.
  intros Hrun.
  destruct (parse_ok_inv E _ _ _ _ _ Hrun)
    as (nickname & avatar_url & sa & client & sc & image_urls & si & retweet
        & sr & timestamp_str & st & qr & sq & qr_code
        & Hn & Hne & Ha & _ & _ & _ & _ & _ & _ & ->).
  cbn [card_user user_name user_desc user_avatar].
  split; [exact Hn|]. split; [exact Hne|].
  split; [destruct (post_description post) as [[| c d] |]; reflexivity|].
  eexists. split; [reflexivity|].
  split; [apply str_or_not_empty; reflexivity|].
  apply resolve_avatar_ok in Ha.
  destruct (post_avatar post) as [[u | b | p | b] |].
  - subst avatar_url. destruct u; reflexivity.
  - destruct (truthy_image (Some (ImgBytes b)));
      [destruct Ha as (ref & Hemb & ->); exists ref; split;
       [exact Hemb | destruct ref; reflexivity]
      | subst avatar_url; reflexivity].
  - destruct Ha as (ref & Hemb & ->). exists ref. split;
      [exact Hemb | destruct ref; reflexivity].
  - destruct Ha as (ref & Hemb & ->). exists ref. split;
      [exact Hemb | destruct ref; reflexivity].
  - subst avatar_url. reflexivity.
Qed.

Lemma parse_user_block_witness :
  option_map (fun r => user_avatar (card_user (fst r)))
             (returned (parse Demo.plain Fixtures.both Fixtures.shelves))
  = Some (Some (String.append "data:image/png;base64,"
                              (string_of_list_byte [Byte.x01]))).
Proof.
  pose (run := parse Demo.plain Fixtures.both Fixtures.shelves).
  destruct (fst run) as [[card imgs] | e] eqn:Hfst; [|discriminate Hfst].
  destruct (parse_user_block Demo.plain Fixtures.both Fixtures.shelves
              (snd run) card imgs) as (_ & _ & _ & avatar & Hav & _ & Hres).
  { rewrite <- Hfst. apply surjective_pairing. }
  unfold returned. fold run. rewrite Hfst. simpl option_map. rewrite Hav.
  simpl in Hres. destruct Hres as (ref & Hemb & ->).
  injection Hemb as <-. reflexivity.
Defined.

(** X15.  For a list of pictures that is in the heap: on the empty list
    [extract_head_pic] raises the [IndexError] of [pics[0]] and calls
    nobody; on any other list it looks at the first picture only and, when
    it returns, gives the very display reference that the loop of the main
    content would put first for that list. *)
Theorem extract_head_pic_is_first_reference
    (E : Collaborators) (pics : loc) (xs : list image) (s : State) :
  heap s !! pics = Some xs ->
  (xs = [] -> extract_head_pic E pics s = (Raise IndexError, s))
  /\ (forall x rest rest', xs = x :: rest ->
        fst (extract_head_pic E pics s)
        = fst (extract_head_pic E 0%nat (mkState [x :: rest'] (trace s))))
  /\ (forall head s1 urls s2,
        extract_head_pic E pics s = (Ok head, s1) ->
        image_urls_loop E xs [] s = (Ok urls, s2) ->
        exists others, urls = head :: others).
Proof.
  intros Hl. unfold extract_head_pic, bind, read.
  rewrite (deref_lookup _ _ _ Hl). split; [|split].
  - intros ->. reflexivity.
  - intros x rest rest' ->. simpl. destruct x; reflexivity.
  - intros head s1 urls s2 Hhead Hloop.
    destruct xs as [| x rest]; [discriminate Hhead|].
    destruct x as [u | b | p | b]; simpl in Hloop;
      [injection Hhead as <- _;
       destruct (image_urls_loop_ok E _ _ _ _ _ Hloop) as (refs & -> & _);
       exists refs; reflexivity
      | | |];
      (apply call_ok_inv in Hhead as [Hemb _]; step Hloop;
       apply call_ok_inv in Hrun as [Hemb' _];
       rewrite Hemb in Hemb'; injection Hemb' as <-;
       destruct (image_urls_loop_ok E _ _ _ _ _ Hloop) as (refs & -> & _);
       exists refs; reflexivity).
Qed.

Lemma extract_head_pic_is_first_reference_witness :
  extract_head_pic Demo.plain 0%nat (mkState [[]] [])
  = (Raise IndexError, mkState [[]] [])
  /\ fst (extract_head_pic Demo.plain 0%nat Demo.shelf)
     = Ok "https://i.example/1.png".
Proof.
  split.
  - apply (extract_head_pic_is_first_reference Demo.plain 0%nat []
             (mkState [[]] []) eq_refl). reflexivity.
  - destruct (extract_head_pic_is_first_reference Demo.plain 0%nat
                Demo.gallery Demo.shelf eq_refl) as (_ & Hfirst & _).
    rewrite (Hfirst _ _ [] eq_refl). reflexivity.
Defined.

(* ===================================================================== *)
(** ** [card_link] *)
(* ===================================================================== *)

(** X16.  For two pictures whose widths are not negative: when both widths
    are 0, [card_link] raises [ZeroDivisionError] before it asks anything of
    PIL; and when it returns, under PIL's promises about sizes, at least one
    width was positive, the card is as wide as the narrower of the two
    pictures, only the wider one was scaled (the second one when they are
    equally wide), and the card's height is the sum of the heights the two
    pieces then have. *)
Theorem card_link_size
    {pil : Type} (size : pil -> Z * Z)
    (resize : pil -> Z * Z -> outcome pil)
    (new : string -> Z * Z -> outcome pil)
    (paste : pil -> pil -> Z * Z -> outcome pil)
    (int_true_div : Z -> Z -> Z)
    (head_pic card_body : pil) (hw hh bw bh : Z) :
  size head_pic = (hw, hh) ->
  size card_body = (bw, bh) ->
  0 <= hw -> 0 <= bw ->
  (hw = 0 -> bw = 0 ->
   card_link size resize new paste int_true_div head_pic card_body
   = Raise ZeroDivisionError)
  /\ (pil_keeps_sizes size resize new paste ->
      forall card,
        card_link size resize new paste int_true_div head_pic card_body
        = Ok card ->
        (0 < hw \/ 0 < bw)
        /\ size card
           = (Z.min hw bw,
              if Z.gtb hw bw then int_true_div (hh * bw) hw + bh
              else hh + int_true_div (bh * hw) bw)).
Proof.
  intros Hh Hb Hhw Hbw. unfold card_link. rewrite Hh, Hb. split.
  - intros -> ->. reflexivity.
  - intros (Hresize & Hnew & Hpaste) card.
    destruct (Z.gtb_spec hw bw) as [Hgt | Hle]; unfold scaled.
    + destruct (Z.eqb_spec hw 0) as [-> | Hne]; [lia|]. simpl.
      destruct (resize head_pic _) as [head' | e] eqn:Hr; [|discriminate].
      simpl. apply Hresize in Hr. rewrite Hr, Hb. simpl.
      destruct (new _ _) as [c0 | e] eqn:Hn; [|discriminate]. simpl.
      destruct (paste c0 head' _) as [c1 | e] eqn:Hp1; [|discriminate]. simpl.
      intros Hp2. apply Hpaste in Hp2, Hp1. apply Hnew in Hn.
      rewrite Hp2, Hp1, Hn. split; [lia|]. f_equal. lia.
    + destruct (Z.eqb_spec bw 0) as [-> | Hne]; [discriminate|]. simpl.
      destruct (resize card_body _) as [body' | e] eqn:Hr; [|discriminate].
      simpl. apply Hresize in Hr. rewrite Hr, Hh. simpl.
      destruct (new _ _) as [c0 | e] eqn:Hn; [|discriminate]. simpl.
      destruct (paste c0 head_pic _) as [c1 | e] eqn:Hp1; [|discriminate].
      simpl. intros Hp2. apply Hpaste in Hp2, Hp1. apply Hnew in Hn.
      rewrite Hp2, Hp1, Hn. split; [lia|]. f_equal. lia.
Qed.

Lemma card_link_size_witness :
  card_link (fun sz => sz) Fixtures.boxes_resize Fixtures.boxes_new
            Fixtures.boxes_paste Z.div (600, 300) (450, 900)
  = Ok (450, 1125).
Proof.
  destruct (card_link_size (fun sz => sz) Fixtures.boxes_resize
              Fixtures.boxes_new Fixtures.boxes_paste Z.div
              (600, 300) (450, 900) 600 300 450 900 eq_refl eq_refl)
    as [_ Hsize]; [lia | lia |].
  destruct (card_link (fun sz => sz) Fixtures.boxes_resize Fixtures.boxes_new
              Fixtures.boxes_paste Z.div (600, 300) (450, 900))
    as [card | e] eqn:Hrun; [|discriminate Hrun].
  f_equal. refine (proj2 (Hsize _ card eq_refl)).
  repeat split; intros; unfold Fixtures.boxes_resize, Fixtures.boxes_new,
    Fixtures.boxes_paste in *; congruence.
Defined.
